(** * unisoc_pac_parser: a shallow embedding of the PAC firmware container parser

    The development follows [unisoc_pac_parser.py]: the two fixed layouts
    ([PacHeader], [Header]) decoded with [struct.unpack], the helpers
    [read_pac_header], [read_header] and [extract_data], and the body of
    [main].  Python integers are [Z]; [bytes] objects are lists of
    [Byte.byte]; a Python [str] is the list of its code points. *)

From Stdlib Require Import ZArith Lia List Bool Ascii String.
From stdpp Require Import base numbers list option gmap.

Local Open Scope Z_scope.

(** ** Bytes, integers and text *)

Definition bytes : Type := list Byte.byte.

(** A Python [str]: the sequence of its Unicode code points. *)
Definition pystr : Type := list Z.

Definition byte_val (b : Byte.byte) : Z := Z.of_N (Byte.to_N b).

(** [int.from_bytes(bs, 'little')], which is how [struct] reads the
    little-endian codes [I] and [H]. *)
Fixpoint le_uint (bs : bytes) : Z :=
  match bs with
  | [] => 0
  | b :: rest => byte_val b + 256 * le_uint rest
  end.

(** [data[off : off + len]] for non-negative [off] and [len]. *)
Definition slice (data : bytes) (off len : Z) : bytes :=
  take (Z.to_nat len) (drop (Z.to_nat off) data).

Definition blen (data : bytes) : Z := Z.of_nat (length data).

(** Exceptions the program can meet. *)
Inductive exn : Type :=
| UnicodeDecodeError
| StructError
| TypeError
| SystemExit (code : Z)
| OSError                 (* OSError or one of its subclasses: FileNotFoundError,
                             IsADirectoryError, NotADirectoryError, PermissionError *)
| MemoryError
| OverflowError
| ValueError
| UnicodeEncodeError.

Inductive outcome (A : Type) : Type :=
| Ok (a : A)
| Raise (e : exn).
Arguments Ok {A} a.
Arguments Raise {A} e.

Definition obind {A B} (c : outcome A) (k : A -> outcome B) : outcome B :=
  match c with
  | Ok a => k a
  | Raise e => Raise e
  end.

Notation "'try' x <- c ; k" := (obind c (fun x => k))
  (at level 10, x name, c at level 100, k at level 200).

(** *** The codecs *)

(** Pairs of bytes to 16-bit code units, low byte first.  A trailing odd
    byte is the codec's "truncated data" error. *)
Fixpoint utf16le_units (bs : bytes) : option (list Z) :=
  match bs with
  | [] => Some []
  | [_] => None
  | lo :: hi :: rest =>
      match utf16le_units rest with
      | Some us => Some ((byte_val lo + 256 * byte_val hi) :: us)
      | None => None
      end
  end.

Definition is_high_surrogate (u : Z) : bool := (0xD800 <=? u) && (u <=? 0xDBFF).
Definition is_low_surrogate (u : Z) : bool := (0xDC00 <=? u) && (u <=? 0xDFFF).

(** Code units to code points under the strict error handler: a high
    surrogate must be followed by a low one, and a low surrogate may not
    stand alone. *)
Fixpoint utf16_points (us : list Z) : option pystr :=
  match us with
  | [] => Some []
  | u :: rest =>
      if is_high_surrogate u then
        match rest with
        | u2 :: rest' =>
            if is_low_surrogate u2 then
              match utf16_points rest' with
              | Some s =>
                  Some ((0x10000 + Z.shiftl (u - 0xD800) 10 + (u2 - 0xDC00)) :: s)
              | None => None
              end
            else None
        | [] => None
        end
      else if is_low_surrogate u then None
      else
        match utf16_points rest with
        | Some s => Some (u :: s)
        | None => None
        end
  end.

(** [bs.decode('utf-16le')] *)
Definition decode_utf16le (bs : bytes) : outcome pystr :=
  match utf16le_units bs with
  | Some us =>
      match utf16_points us with
      | Some s => Ok s
      | None => Raise UnicodeDecodeError
      end
  | None => Raise UnicodeDecodeError
  end.

Definition is_ascii (b : Byte.byte) : bool := byte_val b <? 128.

(** [bs.decode('ascii')] *)
Definition decode_ascii (bs : bytes) : outcome pystr :=
  if forallb is_ascii bs then Ok (map byte_val bs) else Raise UnicodeDecodeError.

(** [bs.decode('ascii', errors='ignore')] *)
Definition decode_ascii_ignore (bs : bytes) : pystr :=
  map byte_val (List.filter is_ascii bs).

(** [s.lstrip(chars)], [s.rstrip(chars)] and [s.strip(chars)] *)
Definition in_chars (chars : pystr) (c : Z) : bool := existsb (Z.eqb c) chars.

Fixpoint lstrip (chars s : pystr) : pystr :=
  match s with
  | [] => []
  | c :: rest => if in_chars chars c then lstrip chars rest else s
  end.

Definition rstrip (chars s : pystr) : pystr := rev (lstrip chars (rev s)).

Definition strip (chars s : pystr) : pystr := rstrip chars (lstrip chars s).

(** The one-character string ['\x00']. *)
Definition NUL : pystr := [0].

(** [a == b] on strings. *)
Fixpoint str_eqb (a b : pystr) : bool :=
  match a, b with
  | [], [] => true
  | x :: a', y :: b' => (x =? y) && str_eqb a' b'
  | _, _ => false
  end.

(** Truth value of a string: non-empty. *)
Definition truthy (s : pystr) : bool :=
  match s with
  | [] => false
  | _ :: _ => true
  end.

(** ** The [struct] module, as far as the two layouts use it *)

Inductive fmt_code : Type :=
| code_s   (* char[]: one bytes object of the given length *)
| code_I   (* unsigned int, 4 bytes *)
| code_H.  (* unsigned short, 2 bytes *)

Definition code_of_ascii (c : ascii) : option fmt_code :=
  match c with
  | "s"%char => Some code_s
  | "I"%char => Some code_I
  | "H"%char => Some code_H
  | _ => None
  end.

Definition digit_of_ascii (c : ascii) : option Z :=
  let n := Z.of_nat (nat_of_ascii c) in
  if (48 <=? n) && (n <=? 57) then Some (n - 48) else None.

(** The items of a format after its byte-order mark: an optional decimal
    repeat count and a code. *)
Fixpoint parse_items (s : string) (count : option Z) : option (list (Z * fmt_code)) :=
  match s with
  | EmptyString =>
      match count with
      | None => Some []
      | Some _ => None
      end
  | String c rest =>
      match digit_of_ascii c with
      | Some d => parse_items rest (Some (10 * default 0 count + d))
      | None =>
          match code_of_ascii c with
          | Some k =>
              match parse_items rest None with
              | Some items => Some ((default 1 count, k) :: items)
              | None => None
              end
          | None => None
          end
      end
  end.

(** Only the little-endian, unpadded mode ['<'] occurs. *)
Definition parse_format (fmt : string) : option (list (Z * fmt_code)) :=
  match fmt with
  | String "<"%char rest => parse_items rest None
  | _ => None
  end.

Definition code_size (k : fmt_code) : Z :=
  match k with
  | code_s => 1
  | code_I => 4
  | code_H => 2
  end.

Fixpoint items_size (items : list (Z * fmt_code)) : Z :=
  match items with
  | [] => 0
  | (n, k) :: rest => n * code_size k + items_size rest
  end.

(** [struct.calcsize(fmt)]; [0] stands for a format that does not parse. *)
Definition calcsize (fmt : string) : Z :=
  match parse_format fmt with
  | Some items => items_size items
  | None => 0
  end.

(** A member of the tuple [struct.unpack] returns. *)
Inductive value : Type :=
| VBytes (b : bytes)
| VInt (n : Z).

Fixpoint unpack_ints (width : Z) (n : nat) (off : Z) (data : bytes) : list value :=
  match n with
  | O => []
  | S n' => VInt (le_uint (slice data off width)) :: unpack_ints width n' (off + width) data
  end.

Fixpoint unpack_items (items : list (Z * fmt_code)) (off : Z) (data : bytes) : list value :=
  match items with
  | [] => []
  | (n, code_s) :: rest => VBytes (slice data off n) :: unpack_items rest (off + n) data
  | (n, k) :: rest =>
      unpack_ints (code_size k) (Z.to_nat n) off data
        ++ unpack_items rest (off + n * code_size k) data
  end.

(** [struct.unpack(fmt, data)]: the buffer must have exactly the size of
    the format. *)
Definition struct_unpack (fmt : string) (data : bytes) : outcome (list value) :=
  match parse_format fmt with
  | Some items =>
      if blen data =? items_size items then Ok (unpack_items items 0 data)
      else Raise StructError
  | None => Raise StructError
  end.

(** [t[i]] where the program takes a bytes member, and where it takes an
    integer. *)
Definition get_bytes (t : list value) (i : nat) : outcome bytes :=
  match t !! i with
  | Some (VBytes b) => Ok b
  | _ => Raise TypeError
  end.

Definition get_int (t : list value) (i : nat) : outcome Z :=
  match t !! i with
  | Some (VInt n) => Ok n
  | _ => Raise TypeError
  end.

(** [t[i:j]] *)
Definition get_slice (t : list value) (i j : nat) : list value :=
  take (j - i) (drop i t).

(** ** The archive header *)

Module PacHeader.

Definition FORMAT : string := "<44sII512s512sIIIIIIII200sIII200I2H".
Definition SIZE : Z := calcsize FORMAT.

Record t : Type := mk {
  szVersion : pystr;
  dwHiSize : Z;
  dwLoSize : Z;
  szPrdName : pystr;
  szPrdVersion : pystr;
  nFileCount : Z;
  dwFileOffset : Z;
  dwMode : Z;
  dwFlashType : Z;
  dwNandStrategy : Z;
  dwIsNvBackup : Z;
  dwNandPageType : Z;
  szPrdAlias : value;
  dwOmaDmProductFlag : pystr;
  dwIsOmaDM : Z;
  dwIsPreload : Z;
  dwReserved : list value;
  dwMagic : Z;
  wCRC1 : Z;
  wCRC2 : Z
}.

(** [unpacked_data[i].decode('utf-16le').strip('\x00')] *)
Definition text16 (u : list value) (i : nat) : outcome pystr :=
  try b <- get_bytes u i;
  try s <- decode_utf16le b;
  Ok (strip NUL s).

(** [PacHeader.__init__]; statements run in the order of the source, so
    the first failing one decides the exception. *)
Definition init (data : bytes) : outcome t :=
  try u <- struct_unpack FORMAT data;
  try v_szVersion <- text16 u 0;
  try v_dwHiSize <- get_int u 1;
  try v_dwLoSize <- get_int u 2;
  try v_szPrdName <- text16 u 3;
  try v_szPrdVersion <- text16 u 4;
  try v_nFileCount <- get_int u 5;
  try v_dwFileOffset <- get_int u 6;
  try v_dwMode <- get_int u 7;
  try v_dwFlashType <- get_int u 8;
  try v_dwNandStrategy <- get_int u 9;
  try v_dwIsNvBackup <- get_int u 10;
  try v_dwNandPageType <- get_int u 11;
  try v_szPrdAlias <- match u !! 12%nat with Some v => Ok v | None => Raise TypeError end;
  try v_flag <- (try b <- get_bytes u 13; try s <- decode_ascii b; Ok (strip NUL s));
  try v_dwIsOmaDM <- get_int u 14;
  try v_dwIsPreload <- get_int u 15;
  try v_dwMagic <- get_int u 216;
  try v_wCRC1 <- get_int u 217;
  try v_wCRC2 <- get_int u 218;
  Ok {| szVersion := v_szVersion; dwHiSize := v_dwHiSize; dwLoSize := v_dwLoSize;
        szPrdName := v_szPrdName; szPrdVersion := v_szPrdVersion;
        nFileCount := v_nFileCount; dwFileOffset := v_dwFileOffset;
        dwMode := v_dwMode; dwFlashType := v_dwFlashType;
        dwNandStrategy := v_dwNandStrategy; dwIsNvBackup := v_dwIsNvBackup;
        dwNandPageType := v_dwNandPageType; szPrdAlias := v_szPrdAlias;
        dwOmaDmProductFlag := v_flag; dwIsOmaDM := v_dwIsOmaDM;
        dwIsPreload := v_dwIsPreload; dwReserved := get_slice u 16 216;
        dwMagic := v_dwMagic; wCRC1 := v_wCRC1; wCRC2 := v_wCRC2 |}.

End PacHeader.

(** ** The entry record of one partition *)

Module Header.

Definition FORMAT : string := "<I512s512s504sIIIIIIII5I249I".
Definition SIZE : Z := calcsize FORMAT.

(** The stored fields.  The 64-bit size and offset are not among them. *)
Record t : Type := mk {
  dwSize : Z;
  szFileID : pystr;
  szFileName : pystr;
  szFileVersion : pystr;
  dwHiFileSize : Z;
  dwHiDataOffset : Z;
  dwLoFileSize : Z;
  nFileFlag : Z;
  nCheckFlag : Z;
  dwLoDataOffset : Z;
  dwCanOmitFlag : Z;
  dwAddrNum : Z;
  dwAddr : list value;
  dwReserved : list value
}.

Definition text16 (u : list value) (i : nat) : outcome pystr :=
  try b <- get_bytes u i;
  try s <- decode_utf16le b;
  Ok (strip NUL s).

(** [Header.__init__] *)
Definition init (data : bytes) : outcome t :=
  try u <- struct_unpack FORMAT data;
  try v_dwSize <- get_int u 0;
  try v_szFileID <- text16 u 1;
  try v_szFileName <- text16 u 2;
  try v_szFileVersion <-
    (try b <- get_bytes u 3; Ok (strip NUL (decode_ascii_ignore b)));
  try v_dwHiFileSize <- get_int u 4;
  try v_dwHiDataOffset <- get_int u 5;
  try v_dwLoFileSize <- get_int u 6;
  try v_nFileFlag <- get_int u 7;
  try v_nCheckFlag <- get_int u 8;
  try v_dwLoDataOffset <- get_int u 9;
  try v_dwCanOmitFlag <- get_int u 10;
  try v_dwAddrNum <- get_int u 11;
  Ok {| dwSize := v_dwSize; szFileID := v_szFileID; szFileName := v_szFileName;
        szFileVersion := v_szFileVersion; dwHiFileSize := v_dwHiFileSize;
        dwHiDataOffset := v_dwHiDataOffset; dwLoFileSize := v_dwLoFileSize;
        nFileFlag := v_nFileFlag; nCheckFlag := v_nCheckFlag;
        dwLoDataOffset := v_dwLoDataOffset; dwCanOmitFlag := v_dwCanOmitFlag;
        dwAddrNum := v_dwAddrNum; dwAddr := get_slice u 12 17;
        dwReserved := get_slice u 17 266 |}.

(** The two properties computed from the stored halves. *)
Definition nFileSize (h : t) : Z :=
  Z.lor (Z.shiftl (dwHiFileSize h) 32) (dwLoFileSize h).

Definition dwDataOffset (h : t) : Z :=
  Z.lor (Z.shiftl (dwHiDataOffset h) 32) (dwLoDataOffset h).

End Header.

(** ** The world the program runs in

    The input file is open for reading for the whole run, so a file
    object is its contents plus the cursor kept in the world.  What the
    operating system or the runtime decides is a parameter of the
    development: what it refuses (an offset the file system rejects, a
    read request too large to allocate, a directory that cannot be
    created, a destination that cannot be opened for writing, a write
    that fails part-way), which file a path names ([resolve]: two paths
    name one file exactly when they resolve alike), and which paths name
    the input file itself.  The contents read are those the input had
    when it was opened; a property that needs the reads made after a
    write says that no destination names the input file. *)

Class Platform : Type := {
  seek_refusal : Z -> option exn;
  read_refusal : Z -> option exn;
  makedirs_refusal : pystr -> option exn;
  open_refusal : pystr -> option exn;
  (* a write that fails: the exception, and how many bytes went out first *)
  write_failure : pystr -> bytes -> option (exn * nat);
  (* the file a path names *)
  resolve : pystr -> pystr;
  (* whether a path names the file being read *)
  names_input : pystr -> bool;
  (* rewinding to the start and reading one header-sized block always work *)
  seek_start : seek_refusal 0 = None;
  read_block : forall n, 0 <= n <= 4096 -> read_refusal n = None;
  (* writing no bytes cannot fail *)
  write_nothing : forall path, write_failure path [] = None
}.

(** What the program prints, without the formatting. *)
Inductive message : Type :=
| MsgHelp
| MsgPacInvalid                                   (* "PAC header is not valid" *)
| MsgPacHeader (h : PacHeader.t) (verbose : bool)
| MsgNoMoreHeaders                                (* "No more headers found or file too short." *)
| MsgHeader (number : Z) (h : Header.t) (verbose : bool)
| MsgExtracted (identifier output_dir : pystr)
| MsgNotFound (identifier : pystr)                (* "Partition ... not found." *)
| MsgExported (identifier output_dir : pystr).

Inductive event : Type :=
| EvSeek (off : Z)
| EvRead (pos size : Z) (got : bytes)
| EvOpen (path : pystr)
| EvWrite (path : pystr) (data : bytes)
| EvClose (path : pystr)
| EvCloseInput
| EvPrint (m : message).

Record world : Type := mkWorld {
  w_pos : Z;                      (* cursor of the input file *)
  w_files : gmap pystr bytes;     (* the files written so far, by the file they are *)
  w_log : list event              (* what happened, oldest first *)
}.

Definition M (A : Type) : Type := world -> outcome A * world.

Definition ret {A} (a : A) : M A := fun w => (Ok a, w).

Definition raise {A} (e : exn) : M A := fun w => (Raise e, w).

Definition bind {A B} (c : M A) (k : A -> M B) : M B :=
  fun w =>
    match c w with
    | (Ok a, w') => k a w'
    | (Raise e, w') => (Raise e, w')
    end.

Notation "'do' x <- c ; k" := (bind c (fun x => k))
  (at level 10, x name, c at level 100, k at level 200).
Notation "'run' c ; k" := (bind c (fun _ => k))
  (at level 10, c at level 100, k at level 200).

(** [try: body finally: cleanup], which is what a [with] block does with
    the file it opened. *)
Definition finally {A} (body : M A) (cleanup : M unit) : M A :=
  fun w =>
    match body w with
    | (r, w1) =>
        match cleanup w1 with
        | (Ok _, w2) => (r, w2)
        | (Raise e, w2) => (Raise e, w2)
        end
    end.

Definition lift {A} (r : outcome A) : M A := fun w => (r, w).

Definition emit (e : event) : M unit :=
  fun w => (Ok tt, mkWorld (w_pos w) (w_files w) (w_log w ++ [e])).

Definition print (m : message) : M unit := emit (EvPrint m).

Definition when (b : bool) (c : M unit) : M unit := if b then c else ret tt.

(** [os.path.join(a, b)] of [posixpath]. *)
Definition SEP : Z := 47.

Definition startswith_sep (s : pystr) : bool :=
  match s with
  | c :: _ => c =? SEP
  | [] => false
  end.

Definition endswith_sep (s : pystr) : bool := startswith_sep (rev s).

Definition os_path_join (a b : pystr) : pystr :=
  if startswith_sep b then b
  else if negb (truthy a) || endswith_sep a then a ++ b
  else a ++ [SEP] ++ b.

Section Program.

Context {P : Platform}.

(** [file.seek(off)] *)
Definition seek (off : Z) : M unit :=
  match seek_refusal off with
  | Some e => raise e
  | None => fun w => (Ok tt, mkWorld off (w_files w) (w_log w ++ [EvSeek off]))
  end.

(** [file.read(size)]: up to [size] bytes from the cursor on; fewer, or
    none, when the file ends first. *)
Definition read (file : bytes) (size : Z) : M bytes :=
  match read_refusal size with
  | Some e => raise e
  | None =>
      fun w =>
        let got := slice file (w_pos w) size in
        (Ok got,
         mkWorld (w_pos w + blen got) (w_files w)
                 (w_log w ++ [EvRead (w_pos w) size got]))
  end.

(** [if not os.path.exists(d): os.makedirs(d)] *)
Definition ensure_dir (d : pystr) : M unit :=
  match makedirs_refusal d with
  | Some e => raise e
  | None => ret tt
  end.

(** [open(path, 'wb')]: the file the path names is created, or emptied
    when it exists. *)
Definition open_wb (path : pystr) : M unit :=
  match open_refusal path with
  | Some e => raise e
  | None =>
      fun w => (Ok tt, mkWorld (w_pos w) (<[resolve path := []]> (w_files w))
                               (w_log w ++ [EvOpen path]))
  end.

(** [out_file.write(data)], together with the flush that closing the file
    performs: either all of [data] reaches the file, or the platform
    fails the write, and then a prefix of [data] has reached the file
    and the exception is raised. *)
Definition write (path : pystr) (data : bytes) : M unit :=
  fun w =>
    let old := default [] (w_files w !! resolve path) in
    match write_failure path data with
    | None =>
        (Ok tt,
         mkWorld (w_pos w) (<[resolve path := old ++ data]> (w_files w))
                 (w_log w ++ [EvWrite path data]))
    | Some (e, n) =>
        (Raise e,
         mkWorld (w_pos w) (<[resolve path := old ++ take n data]> (w_files w))
                 (w_log w ++ [EvWrite path (take n data)]))
    end.

Definition close (path : pystr) : M unit := emit (EvClose path).

Definition read_pac_header (file : bytes) : M (option PacHeader.t) :=
  run seek 0;
  do data <- read file PacHeader.SIZE;
  if negb (blen data =? PacHeader.SIZE) then ret None
  else do h <- lift (PacHeader.init data); ret (Some h).

Definition read_header (file : bytes) (offset : Z) : M (option Header.t) :=
  run seek offset;
  do data <- read file Header.SIZE;
  if negb (blen data =? Header.SIZE) then ret None
  else do h <- lift (Header.init data); ret (Some h).

Definition extract_data (file : bytes) (offset size : Z)
    (output_dir filename : pystr) : M unit :=
  run seek offset;
  do data <- read file size;
  run ensure_dir output_dir;
  let path := os_path_join output_dir filename in
  run open_wb path;
  finally (write path data) (close path).

(** *** The body of [main], block by block *)

Record args : Type := mkArgs {
  a_print : bool;
  a_header : bool;
  a_verbose : bool;
  a_extract : option pystr;      (* [None] when [--extract] is not given *)
  a_export : bool;
  a_output_dir : pystr
}.

(** The initial value of [offset]. *)
Definition main_offset : Z := 2124.

(** The loop [for i in range(n)] that fills [headers]. *)
Fixpoint read_headers (file : bytes) (n : nat) (offset : Z)
    (headers : list Header.t) : M (list Header.t) :=
  match n with
  | O => ret headers
  | S n' =>
      do header <- read_header file offset;
      match header with
      | None => run print MsgNoMoreHeaders; ret headers
      | Some h => read_headers file n' (offset + Header.SIZE) (headers ++ [h])
      end
  end.

(** "Read subsequent headers based on nFileCount" *)
Definition main_walk (file : bytes) (pac_header : PacHeader.t) : M (list Header.t) :=
  read_headers file (Z.to_nat (PacHeader.nFileCount pac_header)) main_offset [].

(** "Print headers" *)
Fixpoint print_headers (idx : Z) (headers : list Header.t) (verbose : bool) : M unit :=
  match headers with
  | [] => ret tt
  | h :: rest =>
      run print (MsgHeader (idx + 1) h verbose);
      print_headers (idx + 1) rest verbose
  end.

(** The [for ... else] loop over [headers] of the extract block. *)
Fixpoint extract_loop (file : bytes) (headers : list Header.t)
    (wanted output_dir : pystr) : M unit :=
  match headers with
  | [] => print (MsgNotFound wanted)
  | h :: rest =>
      if str_eqb (Header.szFileID h) wanted || str_eqb (Header.szFileName h) wanted then
        let identifier :=
          if str_eqb (Header.szFileID h) wanted then Header.szFileID h
          else Header.szFileName h in
        run extract_data file (Header.dwDataOffset h) (Header.nFileSize h)
              output_dir identifier;
        print (MsgExtracted identifier output_dir)
      else extract_loop file rest wanted output_dir
  end.

(** "Extract a specific partition": [if args.extract:] is false for
    [None] and for the empty string. *)
Definition main_extract (file : bytes) (headers : list Header.t)
    (extract : option pystr) (output_dir : pystr) : M unit :=
  match extract with
  | Some wanted =>
      if truthy wanted then extract_loop file headers wanted output_dir else ret tt
  | None => ret tt
  end.

Definition export_identifier (h : Header.t) : pystr :=
  if truthy (Header.szFileID h) then Header.szFileID h else Header.szFileName h.

(** "Export all partitions" *)
Fixpoint export_loop (file : bytes) (headers : list Header.t)
    (output_dir : pystr) : M unit :=
  match headers with
  | [] => ret tt
  | h :: rest =>
      let identifier := export_identifier h in
      run extract_data file (Header.dwDataOffset h) (Header.nFileSize h)
            output_dir identifier;
      run print (MsgExported identifier output_dir);
      export_loop file rest output_dir
  end.

(** [main], given [len(sys.argv)], the parsed arguments and the contents
    of the file named on the command line. *)
Definition main (argc : Z) (a : args) (file : bytes) : M unit :=
  let output_dir := a_output_dir a in
  if argc <=? 2 then
    run print MsgHelp; raise (SystemExit 1)
  else
    finally
      (do pac_header <- read_pac_header file;
       match pac_header with
       | None => print MsgPacInvalid
       | Some ph =>
           run when (a_header a) (print (MsgPacHeader ph (a_verbose a)));
           do headers <- main_walk file ph;
           run when (a_print a || a_verbose a)
                 (print_headers 0 headers (a_verbose a));
           run main_extract file headers (a_extract a) output_dir;
           when (a_export a) (export_loop file headers output_dir)
       end)
      (emit EvCloseInput).

End Program.

(** ** A sample machine

    Linux with CPython on 64 bits and UTF-8 file names.  The working
    directory is the root of an ext4 file system with 4 KiB blocks and
    no symbolic links, which holds the input file [firmware.pac] and a
    directory [out], empty when the run starts.  The process may read
    everything; it may create and write regular files in [out] and
    nothing else: it can create no directory, and it can write neither
    the root directory nor the input file.  Memory allows a block of
    4 GiB and no more, and the disk has room. *)

(** The pieces of a path between its separators. *)
Fixpoint components (s : pystr) : list pystr :=
  match s with
  | [] => [[]]
  | c :: rest =>
      if c =? SEP then [] :: components rest
      else
        match components rest with
        | comp :: others => (c :: comp) :: others
        | [] => [[c]]
        end
  end.

Definition DOT : pystr := [46].
Definition DOTDOT : pystr := [46; 46].
Definition OUT : pystr := [111; 117; 116].
Definition FIRMWARE_PAC : pystr := [102; 105; 114; 109; 119; 97; 114; 101; 46; 112; 97; 99].

(** A lone surrogate that [os.fsencode] cannot encode: all of them but
    U+DC80..U+DCFF, which stand for one undecodable byte each. *)
Definition is_lone_surrogate (c : Z) : bool :=
  (0xD800 <=? c) && (c <=? 0xDFFF) && negb ((0xDC80 <=? c) && (c <=? 0xDCFF)).

(** The bytes of a code point in a file name. *)
Definition utf8_length (c : Z) : Z :=
  if c <? 0x80 then 1
  else if c <? 0x800 then 2
  else if (0xDC80 <=? c) && (c <=? 0xDCFF) then 1
  else if c <? 0x10000 then 3
  else 4.

Definition name_bytes (name : pystr) : Z :=
  fold_right (fun c n => utf8_length c + n) 0 name.

(** What Python raises for a path before any system call: the path is
    encoded first, then searched for a NUL. *)
Definition path_refusal (path : pystr) : option exn :=
  if existsb is_lone_surrogate path then Some UnicodeEncodeError
  else if existsb (Z.eqb 0) path then Some ValueError
  else None.

Definition NAME_MAX : Z := 255.
Definition PATH_MAX : Z := 4096.

(** Where a walk through the file system stands. *)
Inductive place : Type :=
| AtRoot
| AtOut
| AtInput.

(** One component of a walk: [None] when the walk cannot go on (nothing
    of that name, or the walk stands on a regular file). *)
Definition enter (p : place) (comp : pystr) : option place :=
  match p with
  | AtInput => None
  | AtRoot =>
      if negb (truthy comp) || str_eqb comp DOT || str_eqb comp DOTDOT then Some AtRoot
      else if str_eqb comp OUT then Some AtOut
      else if str_eqb comp FIRMWARE_PAC then Some AtInput
      else None
  | AtOut =>
      if negb (truthy comp) || str_eqb comp DOT then Some AtOut
      else if str_eqb comp DOTDOT then Some AtRoot
      else None
  end.

Fixpoint walk_path (p : place) (comps : list pystr) : option place :=
  match comps with
  | [] => Some p
  | comp :: rest =>
      match enter p comp with
      | Some p' => walk_path p' rest
      | None => None
      end
  end.

(** One step of the normalisation of a path from the root: the
    components kept so far, last one first. *)
Definition norm_step (kept : list pystr) (comp : pystr) : list pystr :=
  if negb (truthy comp) || str_eqb comp DOT then kept
  else if str_eqb comp DOTDOT then tl kept
  else comp :: kept.

Definition norm_components (path : pystr) : list pystr :=
  rev (fold_left norm_step (components path) []).

Fixpoint join_components (comps : list pystr) : pystr :=
  match comps with
  | [] => []
  | comp :: rest => SEP :: comp ++ join_components rest
  end.

(** The file a path names: its absolute path without empty, [.] and [..]
    components.  The working directory is the root, and there are no
    symbolic links. *)
Definition posix_resolve (path : pystr) : pystr :=
  match norm_components path with
  | [] => [SEP]
  | comps => join_components comps
  end.

(** [lseek]: ext4 with 4 KiB blocks holds files of up to 2^44 - 4096
    bytes and rejects offsets beyond; an offset that does not fit 64
    signed bits is rejected by Python. *)
Definition posix_seek_refusal (off : Z) : option exn :=
  if (off <? - 2 ^ 63) || (2 ^ 63 <=? off) then Some ValueError
  else if (off <? 0) || (2 ^ 44 - 4096 <? off) then Some OSError
  else None.

(** [read(size)] allocates [size] bytes first: a bytes object has a
    header of 33 bytes, and its size fits 63 bits. *)
Definition posix_read_refusal (size : Z) : option exn :=
  if size <? -1 then Some ValueError
  else if size <=? 2 ^ 32 then None
  else if size <=? 2 ^ 63 - 1 - 33 then Some MemoryError
  else Some OverflowError.

(** [os.makedirs(d)] when [os.path.exists(d)] is false: [makedirs] goes
    down to the first component that is not there and calls [mkdir] on
    the path up to it, which fails since no directory can be created.
    [used] is the length in bytes of the path walked so far. *)
Fixpoint missing_from (p : place) (first : bool) (used : Z) (comps : list pystr)
    : option exn :=
  match comps with
  | [] => None
  | comp :: rest =>
      let used' := used + (if first then 0 else 1) + name_bytes comp in
      match (if PATH_MAX <=? used' then None else enter p comp) with
      | Some p' => missing_from p' false used' rest
      | None =>
          match path_refusal comp with
          | Some e => Some e
          | None => Some OSError
          end
      end
  end.

Definition posix_makedirs_refusal (d : pystr) : option exn :=
  if negb (truthy d) then Some OSError
  else missing_from AtRoot true 0 (components d).

(** [open(path, 'wb')]: the directories of the path must be there, and
    the file itself must be a regular file of [out], new or not, with a
    name of 255 bytes at most. *)
Definition posix_open_refusal (path : pystr) : option exn :=
  match path_refusal path with
  | Some e => Some e
  | None =>
      if negb (truthy path) || (PATH_MAX <=? name_bytes path) then Some OSError
      else
        match rev (components path) with
        | last :: dirs =>
            match walk_path AtRoot (rev dirs) with
            | Some AtOut =>
                if negb (truthy last) || str_eqb last DOT || str_eqb last DOTDOT
                   || (NAME_MAX <? name_bytes last)
                then Some OSError
                else None
            | _ => Some OSError
            end
        | [] => Some OSError
        end
  end.

Definition posix_write_failure (path : pystr) (data : bytes) : option (exn * nat) := None.

Definition posix_names_input (path : pystr) : bool :=
  str_eqb (posix_resolve path) (SEP :: FIRMWARE_PAC).

#[export] Instance posix : Platform.
Proof.
  refine {| seek_refusal := posix_seek_refusal;
            read_refusal := posix_read_refusal;
            makedirs_refusal := posix_makedirs_refusal;
            open_refusal := posix_open_refusal;
            write_failure := posix_write_failure;
            resolve := posix_resolve;
            names_input := posix_names_input;
            seek_start := eq_refl;
            read_block := _;
            write_nothing := fun _ => eq_refl |}.
  intros n Hn. unfold posix_read_refusal.
  destruct (Z.ltb_spec n (-1)) as [Hlt | _]; [lia |].
  destruct (Z.leb_spec n (2 ^ 32)) as [_ | Hgt]; [reflexivity | lia].
Defined.

(** The same machine with a file size limit ([RLIMIT_FSIZE]) of 4 bytes:
    a write stops there, and the rest fails with [EFBIG]. *)
Definition limited_write_failure (path : pystr) (data : bytes) : option (exn * nat) :=
  if (4 <? length data)%nat then Some (OSError, 4%nat) else None.

Definition limited : Platform.
Proof.
  refine {| seek_refusal := posix_seek_refusal;
            read_refusal := posix_read_refusal;
            makedirs_refusal := posix_makedirs_refusal;
            open_refusal := posix_open_refusal;
            write_failure := limited_write_failure;
            resolve := posix_resolve;
            names_input := posix_names_input;
            seek_start := eq_refl;
            read_block := _;
            write_nothing := fun _ => eq_refl |}.
  intros n Hn. unfold posix_read_refusal.
  destruct (Z.ltb_spec n (-1)) as [Hlt | _]; [lia |].
  destruct (Z.leb_spec n (2 ^ 32)) as [_ | Hgt]; [reflexivity | lia].
Defined.

(** The world before the run: cursor at 0, nothing written, nothing logged. *)
Definition w0 : world := mkWorld 0 ∅ [].

Definition zeros (n : nat) : bytes := replicate n Byte.x00.

(** ** The runs of the header loop, as a relation

    [walk file n offset headers trace result]: the loop with [n] rounds
    left, the next record at [offset] and [headers] collected so far
    appends [trace] to the log and ends with [result]. *)
Inductive walk {P : Platform} (file : bytes) :
  nat -> Z -> list Header.t -> list event -> outcome (list Header.t) -> Prop :=
| walk_done offset headers :
    walk file O offset headers [] (Ok headers)
| walk_refused n offset headers e :
    seek_refusal offset = Some e ->
    walk file (S n) offset headers [] (Raise e)
| walk_short n offset headers :
    seek_refusal offset = None ->
    blen (slice file offset Header.SIZE) <> Header.SIZE ->
    walk file (S n) offset headers
         [EvSeek offset; EvRead offset Header.SIZE (slice file offset Header.SIZE);
          EvPrint MsgNoMoreHeaders]
         (Ok headers)
| walk_undecodable n offset headers e :
    seek_refusal offset = None ->
    blen (slice file offset Header.SIZE) = Header.SIZE ->
    Header.init (slice file offset Header.SIZE) = Raise e ->
    walk file (S n) offset headers
         [EvSeek offset; EvRead offset Header.SIZE (slice file offset Header.SIZE)]
         (Raise e)
| walk_next n offset headers h trace result :
    seek_refusal offset = None ->
    blen (slice file offset Header.SIZE) = Header.SIZE ->
    Header.init (slice file offset Header.SIZE) = Ok h ->
    walk file n (offset + Header.SIZE) (headers ++ [h]) trace result ->
    walk file (S n) offset headers
         (EvSeek offset :: EvRead offset Header.SIZE (slice file offset Header.SIZE) :: trace)
         result.

(** The reads among the events: position, requested size, bytes returned. *)
Definition read_of (e : event) : option (Z * Z * bytes) :=
  match e with
  | EvRead pos size got => Some (pos, size, got)
  | _ => None
  end.

Definition reads_of (trace : list event) : list (Z * Z * bytes) := omap read_of trace.

(** A read that stays inside the file: it starts at or before the end and
    returns bytes of the file only. *)
Definition read_in_file (file : bytes) (r : Z * Z * bytes) : Prop :=
  let '(pos, size, got) := r in
  0 <= pos <= blen file /\ pos + blen got <= blen file /\ got = slice file pos size.

(** A member that, when it is an integer, fits 32 unsigned bits. *)
Definition is_u32 (v : value) : Prop :=
  match v with
  | VInt n => 0 <= n < 2 ^ 32
  | VBytes _ => True
  end.

(** ** Building records *)

Definition byte_of (z : Z) : Byte.byte := default Byte.x00 (Byte.of_N (Z.to_N z)).

(** [n.to_bytes(w, 'little')] *)
Fixpoint le_bytes (w : nat) (n : Z) : bytes :=
  match w with
  | O => []
  | S w' => byte_of (n mod 256) :: le_bytes w' (n / 256)
  end.

(** An entry record, zero everywhere but in the four size and offset
    words. *)
Definition entry_record (hi_size hi_offset lo_size lo_offset : Z) : bytes :=
  zeros 1532 ++ le_bytes 4 hi_size ++ le_bytes 4 hi_offset ++ le_bytes 4 lo_size
    ++ zeros 8 ++ le_bytes 4 lo_offset ++ zeros 1024.

(** ** Sample files *)

(** An archive header block, zero everywhere but in [nFileCount] and
    [dwFileOffset]. *)
Definition pac_block (file_count file_offset : Z) : bytes :=
  zeros 1076 ++ le_bytes 4 file_count ++ le_bytes 4 file_offset ++ zeros 1040.

(** Three entries announced, two full records and 100 more bytes present. *)
Definition truncated_file : bytes :=
  pac_block 3 2124 ++ entry_record 0 0 0 0 ++ entry_record 0 0 1 16 ++ zeros 100.

(** One entry announced; the header says the table is at 4096. *)
Definition relocated_file : bytes := pac_block 1 4096 ++ zeros 4552.

(** A [str] literal. *)
Definition ascii_str (s : string) : pystr :=
  map (fun c => Z.of_nat (nat_of_ascii c)) (list_ascii_of_string s).

(** [--export -o out] *)
Definition export_args : args := mkArgs false false false None true (ascii_str "out").

(** A file too short to hold the archive header. *)
Definition stub_file : bytes := zeros 100.

(** Three bytes, of which an extraction at offset 1 can get two. *)
Definition three_bytes : bytes := [Byte.x01; Byte.x02; Byte.x03].

(** The destinations opened for writing among the events. *)
Definition open_of (e : event) : option pystr :=
  match e with
  | EvOpen path => Some path
  | _ => None
  end.

Definition opens_of (trace : list event) : list pystr := omap open_of trace.

(** An entry record whose [szFileID] block starts with the bytes [name]
    (UTF-16LE), zero elsewhere but in the size and offset words. *)
Definition named_record (name : bytes) (hi_size hi_offset lo_size lo_offset : Z) : bytes :=
  zeros 4 ++ name ++ zeros (512 - length name) ++ zeros 1016
    ++ le_bytes 4 hi_size ++ le_bytes 4 hi_offset ++ le_bytes 4 lo_size
    ++ zeros 8 ++ le_bytes 4 lo_offset ++ zeros 1024.

(** The name ["a"] in UTF-16LE. *)
Definition name_a : bytes := [Byte.x61; Byte.x00].

(** Two entries, both with [szFileID = "a"]: the first has the payload
    [file[1076:1077]], the second [file[1076:1078]]. *)
Definition duplicate_file : bytes :=
  pac_block 2 2124 ++ named_record name_a 0 0 1 1076 ++ named_record name_a 0 0 2 1076.

(** Two entries with blank names and different payloads. *)
Definition blank_file : bytes :=
  pac_block 2 2124 ++ entry_record 0 0 1 1076 ++ entry_record 0 0 2 1076.

Definition no_match (wanted : pystr) (h : Header.t) : Prop :=
  Header.szFileID h <> wanted /\ Header.szFileName h <> wanted.

(** Where export-all writes an entry, and what it writes there. *)
Definition export_path (output_dir : pystr) (h : Header.t) : pystr :=
  os_path_join output_dir
    (if truthy (Header.szFileID h) then Header.szFileID h else Header.szFileName h).

Definition payload (file : bytes) (h : Header.t) : bytes :=
  slice file (Header.dwDataOffset h) (Header.nFileSize h).

(** An archive header block whose version field starts with the lone high
    surrogate U+D800. *)
Definition surrogate_block : bytes := [Byte.x00; Byte.xd8] ++ zeros 2122.

(** An archive header block whose version field is a NUL, then ["A"], then
    NULs. *)
Definition leading_nul_block : bytes :=
  [Byte.x00; Byte.x00; Byte.x41; Byte.x00] ++ zeros 2120.

(** [t] is [s] without the NULs at its two ends: what is cut off on either
    side is NULs only, and [t] neither starts nor ends with one. *)
Definition trimmed_of (s t : pystr) : Prop :=
  exists front back,
    s = front ++ t ++ back /\
    Forall (eq 0) front /\ Forall (eq 0) back /\
    (forall r, t <> 0 :: r) /\ (forall r, t <> r ++ [0]).

(** ** Vocabulary of the further properties *)

(** Whether a block decodes under the strict UTF-16LE codec. *)
Definition utf16_ok (bs : bytes) : bool :=
  match decode_utf16le bs with
  | Ok _ => true
  | Raise _ => false
  end.

(** A Unicode scalar value: a code point that is not a surrogate. *)
Definition is_scalar (c : Z) : Prop :=
  0 <= c <= 0x10FFFF /\ ~ (0xD800 <= c <= 0xDFFF).

(** The little-endian 32-bit words of [data] from [off] on, [n] of them,
    as members of an unpacked tuple. *)
Definition words_at (data : bytes) (off : Z) (n : nat) : list value :=
  map (fun i => VInt (le_uint (slice data (off + 4 * Z.of_nat i) 4))) (seq 0 n).

(** A run that appends events satisfying [Q] to the log, and nothing else. *)
Definition emits {A} (Q : event -> Prop) (c : M A) : Prop :=
  forall w, exists trace, w_log (snd (c w)) = w_log w ++ trace /\ Forall Q trace.

(** A run that leaves the written files as they are. *)
Definition keeps_files {A} (c : M A) : Prop :=
  forall w, w_files (snd (c w)) = w_files w.

(** Events that touch no output file. *)
Definition is_quiet (e : event) : Prop :=
  match e with
  | EvOpen _ | EvWrite _ _ | EvClose _ => False
  | _ => True
  end.

(** An entry record whose [szFileID] block starts with a lone surrogate. *)
Definition undecodable_record : bytes := named_record [Byte.x00; Byte.xd8] 0 0 0 0.

(** Two entries announced: a good record, then an undecodable one. *)
Definition damaged_file : bytes :=
  pac_block 2 2124 ++ named_record name_a 0 0 1 1076 ++ undecodable_record.

(** Three entries: ["a"], a blank one, ["a"] again. *)
Definition mixed_file : bytes :=
  pac_block 3 2124 ++ named_record name_a 0 0 1 1076 ++ entry_record 0 0 2 1076
    ++ named_record name_a 0 0 3 1076.

(** [--print --verbose --header], neither extraction nor export. *)
Definition listing_args : args := mkArgs true true true None false (ascii_str "out").

(** Events of the input side: seeks, reads and prints. *)
Definition is_input_event (e : event) : Prop :=
  match e with
  | EvSeek _ | EvRead _ _ _ | EvPrint _ => True
  | _ => False
  end.

(** Any event but the closing of the input file. *)
Definition not_close_input (e : event) : Prop := e <> EvCloseInput.

(** The [i]-th entry record of the table [main] walks. *)
Definition record_at (file : bytes) (i : nat) : bytes :=
  slice file (main_offset + Z.of_nat i * Header.SIZE) Header.SIZE.

(** The name ["./a"] in UTF-16LE. *)
Definition name_dot_a : bytes :=
  [Byte.x2e; Byte.x00; Byte.x2f; Byte.x00; Byte.x61; Byte.x00].

(** Two entries, named ["a"] and ["./a"], with the payloads
    [file[1076:1077]] and [file[1076:1078]]. *)
Definition alias_file : bytes :=
  pac_block 2 2124 ++ named_record name_a 0 0 1 1076 ++ named_record name_dot_a 0 0 2 1076.

(** * Properties *)

(** ** Integers read from bytes *)

Lemma byte_val_range b : 0 <= byte_val b < 256.
Proof.
  unfold byte_val. pose proof (Byte.to_N_bounded b). lia.
Qed.

Lemma le_uint_range bs : 0 <= le_uint bs < 256 ^ blen bs.
Proof.
  unfold blen. induction bs as [| b rest IH].
  - simpl. lia.
  - cbn [le_uint length]. pose proof (byte_val_range b).
    rewrite Nat2Z.inj_succ, Z.pow_succ_r by lia. lia.
Qed.

Lemma slice_length data off len : blen (slice data off len) <= Z.max 0 len.
Proof.
  unfold slice, blen. rewrite length_take. lia.
Qed.

Lemma le_uint_slice_range data off w :
  0 <= w -> 0 <= le_uint (slice data off w) < 256 ^ w.
Proof.
  intros Hw. pose proof (le_uint_range (slice data off w)) as Hr.
  pose proof (slice_length data off w) as Hl.
  assert (256 ^ blen (slice data off w) <= 256 ^ w).
  { apply Z.pow_le_mono_r; [lia |]. lia. }
  lia.
Qed.

Lemma unpack_ints_u32 w n off data :
  0 <= w <= 4 -> Forall is_u32 (unpack_ints w n off data).
Proof.
  intros Hw. revert off. induction n as [| n IH]; intros off; cbn [unpack_ints].
  - constructor.
  - constructor; [| apply IH]. cbn [is_u32].
    pose proof (le_uint_slice_range data off w ltac:(lia)) as Hr.
    assert (256 ^ w <= 256 ^ 4) by (apply Z.pow_le_mono_r; lia).
    change (2 ^ 32) with (256 ^ 4). lia.
Qed.

Lemma unpack_items_u32 items off data : Forall is_u32 (unpack_items items off data).
Proof.
  revert off. induction items as [| [n k] rest IH]; intros off; cbn [unpack_items].
  - constructor.
  - destruct k.
    + constructor; [exact I | apply IH].
    + apply Forall_app. split; [apply unpack_ints_u32; cbn; lia | apply IH].
    + apply Forall_app. split; [apply unpack_ints_u32; cbn; lia | apply IH].
Qed.

Lemma struct_unpack_u32 fmt data u : struct_unpack fmt data = Ok u -> Forall is_u32 u.
Proof.
  unfold struct_unpack. destruct (parse_format fmt) as [items |]; [| discriminate].
  destruct (blen data =? items_size items); [| discriminate].
  intros [= <-]. apply unpack_items_u32.
Qed.

Lemma get_int_u32 u i n : Forall is_u32 u -> get_int u i = Ok n -> 0 <= n < 2 ^ 32.
Proof.
  intros Hall. unfold get_int. destruct (u !! i) as [[b | m] |] eqn:Hi; try discriminate.
  intros [= <-]. rewrite Forall_lookup in Hall. exact (Hall i (VInt m) Hi).
Qed.

(** ** Joining two 32-bit halves *)

Lemma land_shiftl_low hi lo : 0 <= lo < 2 ^ 32 -> Z.land (Z.shiftl hi 32) lo = 0.
Proof.
  intros Hlo. apply Z.bits_inj'. intros n Hn.
  rewrite Z.land_spec, Z.bits_0.
  destruct (Z.lt_ge_cases n 32) as [Hlt | Hge].
  - rewrite Z.shiftl_spec_low by lia. reflexivity.
  - assert (Z.testbit lo n = false) as ->; [| apply andb_false_r].
    destruct (Z.eq_dec lo 0) as [-> | Hnz]; [apply Z.bits_0 |].
    apply Z.bits_above_log2; [lia |].
    apply Z.log2_lt_pow2; [lia |].
    apply Z.lt_le_trans with (2 ^ 32); [lia | apply Z.pow_le_mono_r; lia].
Qed.

Lemma join_halves hi lo :
  0 <= hi < 2 ^ 32 -> 0 <= lo < 2 ^ 32 ->
  Z.lor (Z.shiftl hi 32) lo = hi * 2 ^ 32 + lo /\
  0 <= Z.lor (Z.shiftl hi 32) lo < 2 ^ 64.
Proof.
  intros Hhi Hlo.
  pose proof (Z.add_lor_land (Z.shiftl hi 32) lo) as Hadd.
  rewrite land_shiftl_low in Hadd by assumption.
  rewrite Z.shiftl_mul_pow2 in Hadd by lia.
  rewrite Z.shiftl_mul_pow2 by lia.
  split; [lia |]. change (2 ^ 64) with (2 ^ 32 * 2 ^ 32). nia.
Qed.

(** Distinct pairs of halves give distinct 64-bit values. *)
Lemma join_halves_inj hi lo hi' lo' :
  0 <= hi < 2 ^ 32 -> 0 <= lo < 2 ^ 32 -> 0 <= hi' < 2 ^ 32 -> 0 <= lo' < 2 ^ 32 ->
  Z.lor (Z.shiftl hi 32) lo = Z.lor (Z.shiftl hi' 32) lo' -> hi = hi' /\ lo = lo'.
Proof.
  intros H1 H2 H3 H4 Heq.
  destruct (join_halves hi lo H1 H2) as [E1 _].
  destruct (join_halves hi' lo' H3 H4) as [E2 _].
  rewrite E1, E2 in Heq. lia.
Qed.

(** ** Slices of the file *)

Lemma slice_blen data off len :
  0 <= off -> 0 <= len ->
  blen (slice data off len) = Z.min len (Z.max 0 (blen data - off)).
Proof.
  intros Hoff Hlen. unfold slice, blen. rewrite length_take, length_drop. lia.
Qed.

Lemma slice_full_iff data off len :
  0 <= off -> 0 <= len ->
  blen (slice data off len) = len <-> off + len <= blen data \/ len = 0.
Proof.
  intros Hoff Hlen. rewrite slice_blen by assumption. lia.
Qed.

Lemma slice_all data len : blen data <= len -> slice data 0 len = data.
Proof.
  intros Hle. unfold slice, blen in *. change (Z.to_nat 0) with 0%nat.
  rewrite drop_0. apply take_ge. lia.
Qed.

Lemma slice_to_end data off len :
  0 <= off -> blen data - off <= len -> slice data off len = drop (Z.to_nat off) data.
Proof.
  intros Hoff Hle. unfold slice, blen in *. apply take_ge. rewrite length_drop. lia.
Qed.

(** ** The sizes of the two layouts *)

Lemma PacHeader_SIZE_eq : PacHeader.SIZE = 2124.
Proof. reflexivity. Qed.

Lemma Header_SIZE_eq : Header.SIZE = 2580.
Proof. reflexivity. Qed.

(** ** What [Header.__init__] and [PacHeader.__init__] return *)

Lemma Header_parse :
  parse_format Header.FORMAT = Some (default [] (parse_format Header.FORMAT)).
Proof. reflexivity. Qed.

Lemma PacHeader_parse :
  parse_format PacHeader.FORMAT = Some (default [] (parse_format PacHeader.FORMAT)).
Proof. reflexivity. Qed.

Ltac open_init Hparse :=
  rewrite Hparse; cbv iota beta;
  match goal with
  | |- context [blen ?d =? ?n] =>
      let n' := eval vm_compute in n in
      change n with n'; destruct (Z.eqb_spec (blen d) n'); [| try discriminate]
  end.

(** A successful entry decode consumed exactly one record; its integer
    fields are the little-endian words at fixed places and its two names
    are the stripped decodings of the two 512-byte blocks. *)
Lemma Header_init_Ok data h :
  Header.init data = Ok h ->
  blen data = Header.SIZE /\
  Header.dwHiFileSize h = le_uint (slice data 1532 4) /\
  Header.dwHiDataOffset h = le_uint (slice data 1536 4) /\
  Header.dwLoFileSize h = le_uint (slice data 1540 4) /\
  Header.dwLoDataOffset h = le_uint (slice data 1552 4) /\
  (exists s, decode_utf16le (slice data 4 512) = Ok s /\ Header.szFileID h = strip NUL s) /\
  (exists s, decode_utf16le (slice data 516 512) = Ok s /\ Header.szFileName h = strip NUL s).
Proof.
  unfold Header.init, struct_unpack. open_init Header_parse.
  cbv -[slice le_uint decode_utf16le decode_ascii_ignore strip NUL].
  destruct (decode_utf16le (slice data 4 512)) as [s1 |] eqn:E1; [| discriminate].
  destruct (decode_utf16le (slice data 516 512)) as [s2 |] eqn:E2; [| discriminate].
  intros [= <-]. cbn.
  repeat split; try assumption; try reflexivity; eexists; split; reflexivity.
Qed.

(** A record of the right size fails to decode only in one of its two
    UTF-16 blocks. *)
Lemma Header_init_total data :
  blen data = Header.SIZE ->
  (exists h, Header.init data = Ok h) \/ Header.init data = Raise UnicodeDecodeError.
Proof.
  intros Hlen. unfold Header.init, struct_unpack. open_init Header_parse.
  - cbv -[slice le_uint decode_utf16le decode_ascii_ignore strip NUL].
    unfold decode_utf16le.
    destruct (utf16le_units (slice data 4 512)) as [u1 |]; [| right; reflexivity].
    destruct (utf16_points u1); [| right; reflexivity].
    destruct (utf16le_units (slice data 516 512)) as [u2 |]; [| right; reflexivity].
    destruct (utf16_points u2); [| right; reflexivity].
    left. eexists. reflexivity.
  - exfalso. rewrite Hlen in *. vm_compute in n. congruence.
Qed.

Lemma Header_init_Ok_intro data s1 s2 :
  blen data = Header.SIZE ->
  decode_utf16le (slice data 4 512) = Ok s1 ->
  decode_utf16le (slice data 516 512) = Ok s2 ->
  exists h, Header.init data = Ok h.
Proof.
  intros Hlen E1 E2. unfold Header.init, struct_unpack. open_init Header_parse.
  - cbv -[slice le_uint decode_utf16le decode_ascii_ignore strip NUL].
    rewrite E1, E2. eexists. reflexivity.
  - exfalso. rewrite Hlen in *. vm_compute in n. congruence.
Qed.

(** ** Building an entry record with given halves *)

Lemma byte_val_of z : 0 <= z < 256 -> byte_val (byte_of z) = z.
Proof.
  intros Hz. unfold byte_val, byte_of.
  destruct (Byte.of_N (Z.to_N z)) as [b |] eqn:E.
  - apply Byte.to_of_N in E. change (default Byte.x00 (Some b)) with b. rewrite E. lia.
  - apply Byte.of_N_None_iff in E. lia.
Qed.

Lemma le_bytes_length w n : blen (le_bytes w n) = Z.of_nat w.
Proof.
  unfold blen. f_equal. revert n. induction w as [| w IH]; intros n; cbn [le_bytes length].
  - reflexivity.
  - rewrite IH. reflexivity.
Qed.

Lemma le_uint_le_bytes w n : 0 <= n < 256 ^ Z.of_nat w -> le_uint (le_bytes w n) = n.
Proof.
  revert n. induction w as [| w IH]; intros n Hn; cbn [le_bytes le_uint].
  - change (256 ^ Z.of_nat 0) with 1 in Hn. lia.
  - rewrite Nat2Z.inj_succ, Z.pow_succ_r in Hn by lia.
    rewrite byte_val_of by (apply Z.mod_pos_bound; lia).
    rewrite IH.
    + pose proof (Z.div_mod n 256 ltac:(lia)). lia.
    + split; [apply Z.div_pos; lia | apply Z.div_lt_upper_bound; lia].
Qed.

Lemma blen_app a b : blen (a ++ b) = blen a + blen b.
Proof.
  unfold blen. rewrite length_app. lia.
Qed.

Lemma slice_app_l a b off len :
  0 <= off -> 0 <= len -> off + len <= blen a -> slice (a ++ b) off len = slice a off len.
Proof.
  intros Hoff Hlen Hle. unfold slice, blen in *.
  rewrite drop_app_le by lia. rewrite take_app_le; [reflexivity |].
  rewrite length_drop. lia.
Qed.

Lemma slice_app_r a b off len :
  blen a <= off -> slice (a ++ b) off len = slice b (off - blen a) len.
Proof.
  intros Hle. unfold slice, blen in *.
  rewrite drop_app_ge by lia. do 2 f_equal. lia.
Qed.

Lemma slice_head a b len : blen a = len -> slice (a ++ b) 0 len = a.
Proof.
  intros Hlen. unfold slice, blen in *. change (Z.to_nat 0) with 0%nat.
  rewrite drop_0. apply take_app_length'. lia.
Qed.

Lemma entry_record_words hs ho ls lo :
  let data := entry_record hs ho ls lo in
  blen data = Header.SIZE /\
  slice data 4 512 = zeros 512 /\ slice data 516 512 = zeros 512 /\
  slice data 1532 4 = le_bytes 4 hs /\ slice data 1536 4 = le_bytes 4 ho /\
  slice data 1540 4 = le_bytes 4 ls /\ slice data 1552 4 = le_bytes 4 lo.
Proof.
  cbv zeta. unfold entry_record.
  assert (Hz : forall n, blen (zeros n) = Z.of_nat n).
  { intros n. unfold blen, zeros. rewrite length_replicate. reflexivity. }
  assert (Hb : forall n, blen (le_bytes 4 n) = 4) by (intros n; apply le_bytes_length).
  split.
  { rewrite !blen_app, !Hb, !Hz. reflexivity. }
  split. { rewrite slice_app_l by (rewrite ?Hz; lia). reflexivity. }
  split. { rewrite slice_app_l by (rewrite ?Hz; lia). reflexivity. }
  split.
  { rewrite slice_app_r by (rewrite Hz; lia). rewrite Hz.
    change (1532 - Z.of_nat 1532) with 0. apply slice_head, Hb. }
  split.
  { rewrite slice_app_r by (rewrite Hz; lia). rewrite Hz.
    rewrite slice_app_r by (rewrite Hb; lia). rewrite Hb.
    change (1536 - Z.of_nat 1532 - 4) with 0. apply slice_head, Hb. }
  split.
  { rewrite slice_app_r by (rewrite Hz; lia). rewrite Hz.
    do 2 (rewrite slice_app_r by (rewrite Hb; lia); rewrite Hb).
    change (1540 - Z.of_nat 1532 - 4 - 4) with 0. apply slice_head, Hb. }
  rewrite slice_app_r by (rewrite Hz; lia). rewrite Hz.
  do 3 (rewrite slice_app_r by (rewrite Hb; lia); rewrite Hb).
  rewrite slice_app_r by (rewrite Hz; lia). rewrite Hz.
  change (1552 - Z.of_nat 1532 - 4 - 4 - 4 - Z.of_nat 8) with 0. apply slice_head, Hb.
Qed.

(** Every combination of 32-bit halves is the content of some record
    that decodes. *)
Lemma entry_record_decodes hs ho ls lo :
  0 <= hs < 2 ^ 32 -> 0 <= ho < 2 ^ 32 -> 0 <= ls < 2 ^ 32 -> 0 <= lo < 2 ^ 32 ->
  exists h, Header.init (entry_record hs ho ls lo) = Ok h /\
            Header.dwHiFileSize h = hs /\ Header.dwHiDataOffset h = ho /\
            Header.dwLoFileSize h = ls /\ Header.dwLoDataOffset h = lo.
Proof.
  intros H1 H2 H3 H4.
  destruct (entry_record_words hs ho ls lo) as (Hlen & Ea & Eb & E1 & E2 & E3 & E4).
  destruct (Header_init_Ok_intro (entry_record hs ho ls lo)
              (replicate 256 0) (replicate 256 0) Hlen) as [h Hh].
  { rewrite Ea. vm_compute. reflexivity. }
  { rewrite Eb. vm_compute. reflexivity. }
  exists h. split; [exact Hh |].
  destruct (Header_init_Ok _ _ Hh) as (_ & F1 & F2 & F3 & F4 & _).
  rewrite F1, F2, F3, F4, E1, E2, E3, E4.
  rewrite !le_uint_le_bytes by (change (256 ^ Z.of_nat 4) with (2 ^ 32); assumption).
  repeat split.
Qed.

(** C1.  For every entry record that decodes, the four stored halves are
    the little-endian 32-bit words at bytes 1532, 1536, 1540 and 1552 of
    the record; [nFileSize] is [(dwHiFileSize << 32) | dwLoFileSize] and
    [dwDataOffset] is [(dwHiDataOffset << 32) | dwLoDataOffset], which are
    exactly [hi * 2^32 + lo], unsigned 64-bit values, whatever the halves
    are (zero or not).  Both are computed from the stored halves: the
    record has no field for them. *)
Theorem C1_effective_size_and_offset (data : bytes) (h : Header.t) :
  Header.init data = Ok h ->
  (Header.dwHiFileSize h = le_uint (slice data 1532 4) /\
   Header.dwHiDataOffset h = le_uint (slice data 1536 4) /\
   Header.dwLoFileSize h = le_uint (slice data 1540 4) /\
   Header.dwLoDataOffset h = le_uint (slice data 1552 4)) /\
  (0 <= Header.dwHiFileSize h < 2 ^ 32 /\ 0 <= Header.dwLoFileSize h < 2 ^ 32 /\
   0 <= Header.dwHiDataOffset h < 2 ^ 32 /\ 0 <= Header.dwLoDataOffset h < 2 ^ 32) /\
  Header.nFileSize h = Z.lor (Z.shiftl (Header.dwHiFileSize h) 32) (Header.dwLoFileSize h) /\
  Header.nFileSize h = Header.dwHiFileSize h * 2 ^ 32 + Header.dwLoFileSize h /\
  Header.dwDataOffset h
    = Z.lor (Z.shiftl (Header.dwHiDataOffset h) 32) (Header.dwLoDataOffset h) /\
  Header.dwDataOffset h = Header.dwHiDataOffset h * 2 ^ 32 + Header.dwLoDataOffset h /\
  0 <= Header.nFileSize h < 2 ^ 64 /\
  0 <= Header.dwDataOffset h < 2 ^ 64.
Proof.
  intros Hinit.
  destruct (Header_init_Ok data h Hinit) as (_ & F1 & F2 & F3 & F4 & _).
  assert (R : forall off, 0 <= le_uint (slice data off 4) < 2 ^ 32).
  { intros off. change (2 ^ 32) with (256 ^ 4). apply le_uint_slice_range. lia. }
  assert (R1 := R 1532). assert (R2 := R 1536). assert (R3 := R 1540). assert (R4 := R 1552).
  rewrite <- F1 in R1. rewrite <- F2 in R2. rewrite <- F3 in R3. rewrite <- F4 in R4.
  destruct (join_halves _ _ R1 R3) as [Es Bs].
  destruct (join_halves _ _ R2 R4) as [Eo Bo].
  unfold Header.nFileSize, Header.dwDataOffset.
  repeat split; try assumption; try reflexivity; lia.
Qed.

(** A record whose size is [1 * 2^32 + 2] and whose payload starts at
    [3 * 2^32 + 16]. *)
Lemma C1_effective_size_and_offset_witness :
  exists h, Header.init (entry_record 1 3 2 16) = Ok h /\
            Header.nFileSize h = Header.dwHiFileSize h * 2 ^ 32 + Header.dwLoFileSize h /\
            Header.nFileSize h = 4294967298 /\ Header.dwDataOffset h = 12884901904.
Proof.
  eexists. split; [vm_compute; reflexivity |].
  match goal with
  | |- Header.nFileSize ?h = _ /\ _ =>
      destruct (C1_effective_size_and_offset (entry_record 1 3 2 16) h)
        as (_ & _ & _ & Es & _ & _ & _); [vm_compute; reflexivity |]
  end.
  split; [exact Es |]. split; vm_compute; reflexivity.
Defined.

(** ** The header loop *)

Section Walk.

Context {P : Platform}.

Lemma read_header_eq file offset w :
  read_header file offset w =
  match seek_refusal offset with
  | Some e => (Raise e, w)
  | None =>
      let got := slice file offset Header.SIZE in
      let w' := mkWorld (offset + blen got) (w_files w)
                        (w_log w ++ [EvSeek offset; EvRead offset Header.SIZE got]) in
      if blen got =? Header.SIZE then
        (match Header.init got with
         | Ok h => Ok (Some h)
         | Raise e => Raise e
         end, w')
      else (Ok None, w')
  end.
Proof.
  unfold read_header, seek, read, bind.
  destruct (seek_refusal offset) as [e |]; [reflexivity |].
  rewrite (read_block Header.SIZE) by (rewrite Header_SIZE_eq; lia).
  cbn [w_pos w_files w_log]. rewrite <- app_assoc. cbn [app].
  destruct (blen (slice file offset Header.SIZE) =? Header.SIZE); cbn [negb].
  - unfold lift, ret. destruct (Header.init (slice file offset Header.SIZE)); reflexivity.
  - reflexivity.
Qed.

(** The loop always ends, leaves the written files alone, and its run is
    one of the runs [walk] describes. *)
Lemma read_headers_walk file n : forall offset headers w,
  exists trace result pos,
    read_headers file n offset headers w
      = (result, mkWorld pos (w_files w) (w_log w ++ trace)) /\
    walk file n offset headers trace result.
Proof.
  induction n as [| n IH]; intros offset headers w; cbn [read_headers].
  - exists [], (Ok headers), (w_pos w). split; [| constructor].
    unfold ret. rewrite app_nil_r. destruct w; reflexivity.
  - unfold bind at 1. rewrite read_header_eq.
    destruct (seek_refusal offset) as [e |] eqn:Hseek.
    + exists [], (Raise e), (w_pos w). split; [| constructor; assumption].
      rewrite app_nil_r. destruct w; reflexivity.
    + cbv zeta. destruct (Z.eqb_spec (blen (slice file offset Header.SIZE)) Header.SIZE)
        as [Hfull | Hshort].
      * destruct (Header.init (slice file offset Header.SIZE)) as [h | e] eqn:Hinit.
        -- destruct (IH (offset + Header.SIZE) (headers ++ [h])
                       (mkWorld (offset + blen (slice file offset Header.SIZE)) (w_files w)
                          (w_log w ++ [EvSeek offset;
                                       EvRead offset Header.SIZE
                                         (slice file offset Header.SIZE)])))
             as (trace & result & pos & Hrun & Hwalk).
           exists (EvSeek offset :: EvRead offset Header.SIZE (slice file offset Header.SIZE)
                     :: trace), result, pos.
           split; [| eapply walk_next; eassumption].
           rewrite Hrun. cbn [w_files w_log]. rewrite <- app_assoc. reflexivity.
        -- eexists _, (Raise e), _. split; [reflexivity |].
           apply walk_undecodable; assumption.
      * eexists _, (Ok headers), _. split; [| apply walk_short; assumption].
        unfold bind, print, emit, ret. cbn [w_pos w_files w_log].
        rewrite <- app_assoc. reflexivity.
Qed.

(** On a run that starts inside the file, every record kept was read in
    full, so the number of records kept is bounded by the rounds and by
    the records that fit. *)
Lemma walk_bound file n offset headers trace result :
  walk file n offset headers trace result ->
  0 <= offset <= blen file ->
  forall hs, result = Ok hs ->
    exists more, hs = headers ++ more /\
      Z.of_nat (length more)
        <= Z.min (Z.of_nat n) ((blen file - offset) / Header.SIZE).
Proof.
  induction 1 as [offset headers | n offset headers e Hs | n offset headers Hs Hshort
                  | n offset headers e Hs Hfull Hinit
                  | n offset headers h trace result Hs Hfull Hinit Hwalk IH];
    intros Hoff hs Hres.
  - injection Hres as <-. exists []. rewrite app_nil_r. split; [reflexivity |].
    cbn [length]. pose proof (Z.div_pos (blen file - offset) Header.SIZE).
    rewrite Header_SIZE_eq in *. lia.
  - discriminate.
  - injection Hres as <-. exists []. rewrite app_nil_r. split; [reflexivity |].
    cbn [length]. pose proof (Z.div_pos (blen file - offset) Header.SIZE).
    rewrite Header_SIZE_eq in *. lia.
  - discriminate.
  - apply slice_full_iff in Hfull; [| lia | rewrite Header_SIZE_eq; lia].
    rewrite Header_SIZE_eq in *.
    destruct (IH ltac:(lia) hs Hres) as (more & -> & Hlen).
    exists (h :: more). rewrite <- app_assoc. split; [reflexivity |].
    cbn [length].
    assert ((blen file - (offset + 2580)) / 2580 + 1 <= (blen file - offset) / 2580).
    { apply Z.div_le_lower_bound; [lia |].
      pose proof (Z.mul_div_le (blen file - (offset + 2580)) 2580 ltac:(lia)). lia. }
    lia.
Qed.

Lemma walk_reads_in_file file n offset headers trace result :
  walk file n offset headers trace result ->
  0 <= offset <= blen file ->
  Forall (read_in_file file) (reads_of trace).
Proof.
  assert (Hone : forall off, 0 <= off <= blen file ->
            read_in_file file (off, Header.SIZE, slice file off Header.SIZE)).
  { intros off Hoff. cbn. rewrite slice_blen by (rewrite ?Header_SIZE_eq; lia).
    repeat split; lia. }
  induction 1 as [offset headers | n offset headers e Hs | n offset headers Hs Hshort
                  | n offset headers e Hs Hfull Hinit
                  | n offset headers h trace result Hs Hfull Hinit Hwalk IH];
    intros Hoff; cbn.
  - constructor.
  - constructor.
  - constructor; [apply Hone; assumption | constructor].
  - constructor; [apply Hone; assumption | constructor].
  - constructor; [apply Hone; assumption |].
    apply IH. apply slice_full_iff in Hfull; [| lia | rewrite Header_SIZE_eq; lia].
    rewrite Header_SIZE_eq in *. lia.
Qed.

(** The [i]-th record is read at [offset + i * Header.SIZE], and a full
    record is asked for. *)
Lemma walk_read_positions file n offset headers trace result :
  walk file n offset headers trace result ->
  forall (i : nat) pos size got,
    reads_of trace !! i = Some (pos, size, got) ->
    pos = offset + Z.of_nat i * Header.SIZE /\ size = Header.SIZE /\
    got = slice file pos Header.SIZE.
Proof.
  induction 1 as [offset headers | n offset headers e Hs | n offset headers Hs Hshort
                  | n offset headers e Hs Hfull Hinit
                  | n offset headers h trace result Hs Hfull Hinit Hwalk IH];
    intros i pos size got Hi; cbn in Hi.
  - discriminate.
  - discriminate.
  - destruct i as [| i]; [| discriminate]. injection Hi as <- <- <-.
    repeat split; lia.
  - destruct i as [| i]; [| discriminate]. injection Hi as <- <- <-.
    repeat split; lia.
  - destruct i as [| i].
    + injection Hi as <- <- <-. repeat split; lia.
    + destruct (IH i pos size got Hi) as (-> & -> & ->). repeat split; lia.
Qed.

(** A short read is the last read: after it the loop only prints its
    message and returns the records decoded before; those are as many as
    the reads before the short one. *)
Lemma walk_short_read file n offset headers trace result :
  walk file n offset headers trace result ->
  forall before pos size got after,
    trace = before ++ EvRead pos size got :: after ->
    blen got < Header.SIZE ->
    after = [EvPrint MsgNoMoreHeaders] /\
    exists more, result = Ok (headers ++ more) /\
                 length more = length (reads_of before).
Proof.
  induction 1 as [offset headers | n offset headers e Hs | n offset headers Hs Hshort
                  | n offset headers e Hs Hfull Hinit
                  | n offset headers h trace result Hs Hfull Hinit Hwalk IH];
    intros before pos size got after Htrace Hlt.
  - destruct before; discriminate.
  - destruct before; discriminate.
  - destruct before as [| e1 [| e2 [| e3 [| e4 before]]]]; simplify_eq/=.
    split; [reflexivity |]. exists []. rewrite app_nil_r. split; reflexivity.
  - destruct before as [| e1 [| e2 [| e3 before]]]; simplify_eq/=. lia.
  - destruct before as [| e1 [| e2 before]]; simplify_eq/=; [lia |].
    destruct (IH before pos size got after eq_refl Hlt) as (Hafter & more & -> & Hlen).
    split; [exact Hafter |]. exists (h :: more). rewrite <- app_assoc.
    split; [reflexivity |]. cbn [length]. rewrite Hlen. reflexivity.
Qed.

End Walk.

(** ** Reading the archive header *)

Lemma PacHeader_init_Ok data ph :
  PacHeader.init data = Ok ph ->
  blen data = PacHeader.SIZE /\
  PacHeader.nFileCount ph = le_uint (slice data 1076 4) /\
  PacHeader.dwFileOffset ph = le_uint (slice data 1080 4) /\
  (exists s, decode_utf16le (slice data 0 44) = Ok s /\
             PacHeader.szVersion ph = strip NUL s) /\
  (exists s, decode_utf16le (slice data 52 512) = Ok s /\
             PacHeader.szPrdName ph = strip NUL s) /\
  (exists s, decode_utf16le (slice data 564 512) = Ok s /\
             PacHeader.szPrdVersion ph = strip NUL s).
Proof.
  unfold PacHeader.init, struct_unpack. open_init PacHeader_parse.
  cbv -[slice le_uint decode_utf16le decode_ascii strip NUL].
  destruct (decode_utf16le (slice data 0 44)) as [s1 |] eqn:E1; [| discriminate].
  destruct (decode_utf16le (slice data 52 512)) as [s2 |] eqn:E2; [| discriminate].
  destruct (decode_utf16le (slice data 564 512)) as [s3 |] eqn:E3; [| discriminate].
  destruct (decode_ascii (slice data 1108 200)) as [s4 |] eqn:E4; [| discriminate].
  intros [= <-]. cbn.
  repeat split; try assumption; try reflexivity; eexists; split; reflexivity.
Qed.

Section ReadPacHeader.

Context {P : Platform}.

Lemma read_pac_header_eq file w :
  read_pac_header file w =
  let got := slice file 0 PacHeader.SIZE in
  let w' := mkWorld (blen got) (w_files w)
                    (w_log w ++ [EvSeek 0; EvRead 0 PacHeader.SIZE got]) in
  if blen got =? PacHeader.SIZE then
    (match PacHeader.init got with
     | Ok h => Ok (Some h)
     | Raise e => Raise e
     end, w')
  else (Ok None, w').
Proof.
  unfold read_pac_header, seek, read, bind.
  rewrite seek_start.
  rewrite (read_block PacHeader.SIZE) by (rewrite PacHeader_SIZE_eq; lia).
  cbn [w_pos w_files w_log]. rewrite <- app_assoc. cbn [app]. rewrite Z.add_0_l.
  destruct (blen (slice file 0 PacHeader.SIZE) =? PacHeader.SIZE); cbn [negb].
  - unfold lift, ret. destruct (PacHeader.init (slice file 0 PacHeader.SIZE)); reflexivity.
  - reflexivity.
Qed.

(** When the archive header was read, the file holds at least the
    header, and the entry count is an unsigned 32-bit number. *)
Lemma read_pac_header_Some file w ph w1 :
  read_pac_header file w = (Ok (Some ph), w1) ->
  PacHeader.SIZE <= blen file /\ 0 <= PacHeader.nFileCount ph < 2 ^ 32 /\
  PacHeader.init (slice file 0 PacHeader.SIZE) = Ok ph.
Proof.
  rewrite read_pac_header_eq. cbv zeta.
  destruct (Z.eqb_spec (blen (slice file 0 PacHeader.SIZE)) PacHeader.SIZE) as [Hfull | Hshort];
    [| discriminate].
  destruct (PacHeader.init (slice file 0 PacHeader.SIZE)) as [h | e] eqn:Hinit; [| discriminate].
  intros [= -> _].
  apply slice_full_iff in Hfull; [| lia | rewrite PacHeader_SIZE_eq; lia].
  split; [rewrite PacHeader_SIZE_eq in *; lia |]. split; [| reflexivity].
  destruct (PacHeader_init_Ok _ _ Hinit) as (_ & -> & _).
  change (2 ^ 32) with (256 ^ 4). apply le_uint_slice_range. lia.
Qed.

End ReadPacHeader.

(** ** The entry table walk of [main] *)

Section MainWalk.

Context {P : Platform}.

(** C2.  Whatever the entry count and the file: once the archive header
    was read, the walk keeps at most
    [min(nFileCount, floor((file_len - 2124) / Header.SIZE))] entries;
    every read starts inside the file and returns bytes of the file only;
    and a read that returns fewer than [Header.SIZE] bytes ends the walk
    at once, without an exception: the entries decoded before are kept and
    nothing but the closing message follows. *)
Theorem C2_walk_bounded_by_count_and_file (file : bytes) (w w1 w2 : world)
    (ph : PacHeader.t) (r : outcome (list Header.t)) :
  read_pac_header file w = (Ok (Some ph), w1) ->
  main_walk file ph w1 = (r, w2) ->
  exists trace,
    w_log w2 = w_log w1 ++ trace /\
    w_files w2 = w_files w1 /\
    (forall hs, r = Ok hs ->
       Z.of_nat (length hs)
         <= Z.min (PacHeader.nFileCount ph) ((blen file - main_offset) / Header.SIZE)) /\
    Forall (read_in_file file) (reads_of trace) /\
    (forall before pos size got after,
       trace = before ++ EvRead pos size got :: after ->
       blen got < Header.SIZE ->
       after = [EvPrint MsgNoMoreHeaders] /\
       exists hs, r = Ok hs /\ length hs = length (reads_of before)).
Proof.
  intros Hpac Hwalk.
  destruct (read_pac_header_Some _ _ _ _ Hpac) as (Hlen & Hcount & _).
  unfold main_walk in Hwalk.
  destruct (read_headers_walk file (Z.to_nat (PacHeader.nFileCount ph)) main_offset [] w1)
    as (trace & result & pos & Hrun & Hspec).
  rewrite Hrun in Hwalk. injection Hwalk as <- <-.
  assert (Hoff : 0 <= main_offset <= blen file).
  { unfold main_offset. rewrite PacHeader_SIZE_eq in Hlen. lia. }
  exists trace. cbn [w_log w_files]. split; [reflexivity |]. split; [reflexivity |].
  split; [| split].
  - intros hs Hres.
    destruct (walk_bound _ _ _ _ _ _ Hspec Hoff hs Hres) as (more & -> & Hbound).
    cbn [app]. rewrite Z2Nat.id in Hbound by lia. exact Hbound.
  - exact (walk_reads_in_file _ _ _ _ _ _ Hspec Hoff).
  - intros before pos' size got after Htrace Hlt.
    destruct (walk_short_read _ _ _ _ _ _ Hspec _ _ _ _ _ Htrace Hlt)
      as (Hafter & more & Hres & Hmore).
    split; [exact Hafter |]. exists more. split; assumption.
Qed.

(** C3, as the code has it.  The walk does not look at [dwFileOffset]: it
    starts at the constant 2124, and the [i]-th record it reads is the
    [Header.SIZE] bytes at [2124 + i * Header.SIZE], for every archive
    header with the same entry count. *)
Theorem C3_walk_starts_at_constant_offset (file : bytes) (ph : PacHeader.t) (w : world) :
  exists trace r pos,
    main_walk file ph w = (r, mkWorld pos (w_files w) (w_log w ++ trace)) /\
    (forall (i : nat) p size got,
       reads_of trace !! i = Some (p, size, got) ->
       p = 2124 + Z.of_nat i * Header.SIZE /\ size = Header.SIZE /\
       got = slice file p Header.SIZE) /\
    (forall ph',
       PacHeader.nFileCount ph' = PacHeader.nFileCount ph ->
       main_walk file ph' w = main_walk file ph w).
Proof.
  unfold main_walk.
  destruct (read_headers_walk file (Z.to_nat (PacHeader.nFileCount ph)) main_offset [] w)
    as (trace & r & pos & Hrun & Hspec).
  exists trace, r, pos. split; [exact Hrun |]. split.
  - intros i p size got Hi.
    exact (walk_read_positions _ _ _ _ _ _ Hspec i p size got Hi).
  - intros ph' ->. reflexivity.
Qed.

(** C10.  The constant 2124 is [PacHeader.SIZE], the size computed from
    the archive header's format; so when the walk reads a first record, it
    reads the bytes that follow the header at once, and what the header
    stores in [dwFileOffset] plays no part. *)
Theorem C10_table_offset_is_header_size (file : bytes) (w : world) :
  main_offset = PacHeader.SIZE /\
  PacHeader.SIZE = calcsize PacHeader.FORMAT /\
  (forall ph ph',
     PacHeader.nFileCount ph' = PacHeader.nFileCount ph ->
     main_walk file ph' w = main_walk file ph w) /\
  (forall ph,
     0 < PacHeader.nFileCount ph ->
     seek_refusal PacHeader.SIZE = None ->
     exists rest,
       w_log (snd (main_walk file ph w))
       = w_log w ++ EvSeek PacHeader.SIZE
           :: EvRead PacHeader.SIZE Header.SIZE (slice file PacHeader.SIZE Header.SIZE)
           :: rest).
Proof.
  split; [reflexivity |]. split; [reflexivity |]. split.
  - intros ph ph' Heq. unfold main_walk. rewrite Heq. reflexivity.
  - intros ph Hpos Hseek. unfold main_walk.
    destruct (read_headers_walk file (Z.to_nat (PacHeader.nFileCount ph)) main_offset [] w)
      as (trace & r & pos & Hrun & Hspec).
    rewrite Hrun. cbn [snd w_log].
    change PacHeader.SIZE with main_offset in *.
    inversion Hspec; subst; try (eexists; reflexivity); try congruence.
    lia.
Qed.

(** C9.  [read_pac_header] gives up (returns [None]) exactly when the file
    holds fewer than [PacHeader.SIZE] bytes, the size computed from the
    format; and then [main] prints its complaint, closes the file and
    returns: it reads nothing more and writes no file. *)
Theorem C9_truncated_header_aborts (file : bytes) (w : world) :
  PacHeader.SIZE = calcsize PacHeader.FORMAT /\
  ((exists w', read_pac_header file w = (Ok None, w')) <-> blen file < PacHeader.SIZE) /\
  (forall argc a,
     2 < argc ->
     blen file < PacHeader.SIZE ->
     main argc a file w
     = (Ok tt,
        mkWorld (blen file) (w_files w)
          (w_log w ++ [EvSeek 0; EvRead 0 PacHeader.SIZE file;
                       EvPrint MsgPacInvalid; EvCloseInput]))).
Proof.
  assert (Hfull : blen (slice file 0 PacHeader.SIZE) = PacHeader.SIZE
                  <-> PacHeader.SIZE <= blen file).
  { rewrite slice_full_iff by (rewrite ?PacHeader_SIZE_eq; lia).
    rewrite PacHeader_SIZE_eq. lia. }
  split; [reflexivity |]. split; [split |].
  - intros [w' Hnone]. rewrite read_pac_header_eq in Hnone. cbv zeta in Hnone.
    destruct (Z.eqb_spec (blen (slice file 0 PacHeader.SIZE)) PacHeader.SIZE) as [Heq | Hne].
    + destruct (PacHeader.init (slice file 0 PacHeader.SIZE)); discriminate.
    + rewrite Hfull in Hne. lia.
  - intros Hlt. rewrite read_pac_header_eq. cbv zeta.
    destruct (Z.eqb_spec (blen (slice file 0 PacHeader.SIZE)) PacHeader.SIZE) as [Heq | Hne].
    + rewrite Hfull in Heq. lia.
    + eexists. reflexivity.
  - intros argc a Hargc Hlt. unfold main.
    destruct (Z.leb_spec argc 2) as [Hle | _]; [lia |].
    unfold finally, bind. rewrite read_pac_header_eq. cbv zeta.
    destruct (Z.eqb_spec (blen (slice file 0 PacHeader.SIZE)) PacHeader.SIZE) as [Heq | Hne].
    + rewrite Hfull in Heq. lia.
    + rewrite slice_all by lia.
      unfold print, emit. cbn [w_pos w_files w_log].
      rewrite <- !app_assoc. reflexivity.
Qed.

End MainWalk.

(** *** The walk on the sample files *)

(** Three entries announced, two full records in the file: two entries,
    no exception. *)
Lemma C2_walk_bounded_by_count_and_file_witness :
  exists ph w1 hs w2,
    read_pac_header truncated_file w0 = (Ok (Some ph), w1) /\
    main_walk truncated_file ph w1 = (Ok hs, w2) /\
    length hs = 2%nat /\
    Z.of_nat (length hs)
      <= Z.min (PacHeader.nFileCount ph) ((blen truncated_file - main_offset) / Header.SIZE).
Proof.
  eexists _, _, _, _.
  split; [vm_compute; reflexivity |].
  split; [vm_compute; reflexivity |].
  split; [reflexivity |].
  match goal with
  | |- context [PacHeader.nFileCount ?ph] =>
      destruct (C2_walk_bounded_by_count_and_file (P := posix) truncated_file w0 _ _ ph _
                  ltac:(vm_compute; reflexivity) ltac:(vm_compute; reflexivity))
        as (trace & _ & _ & Hbound & _)
  end.
  apply Hbound. reflexivity.
Defined.

Lemma C3_walk_starts_at_constant_offset_witness :
  exists ph w1,
    read_pac_header relocated_file w0 = (Ok (Some ph), w1) /\
    exists trace r pos,
      main_walk relocated_file ph w1 = (r, mkWorld pos (w_files w1) (w_log w1 ++ trace)) /\
      reads_of trace !! 0%nat
      = Some (2124, Header.SIZE, slice relocated_file 2124 Header.SIZE) /\
      2124 = 2124 + Z.of_nat 0 * Header.SIZE.
Proof.
  eexists _, _. split; [vm_compute; reflexivity |].
  match goal with
  | |- context [main_walk _ ?ph ?w1] =>
      destruct (C3_walk_starts_at_constant_offset (P := posix) relocated_file ph w1)
        as (trace & r & pos & Hrun & Hpos & _)
  end.
  exists trace, r, pos. split; [exact Hrun |].
  assert (Hfirst : reads_of trace !! 0%nat
                   = Some (2124, Header.SIZE, slice relocated_file 2124 Header.SIZE)).
  { vm_compute in Hrun. injection Hrun as _ _ <-. reflexivity. }
  split; [exact Hfirst |].
  exact (proj1 (Hpos 0%nat _ _ _ Hfirst)).
Defined.

(** The header of [relocated_file] stores 4096 in [dwFileOffset] and
    announces one entry; the walk reads that entry at 2124, and nothing at
    4096. *)
Lemma C3_walk_ignores_dwFileOffset_counterexample :
  exists ph w1 r w2,
    read_pac_header relocated_file w0 = (Ok (Some ph), w1) /\
    PacHeader.dwFileOffset ph = 4096 /\
    PacHeader.nFileCount ph = 1 /\
    main_walk relocated_file ph w1 = (r, w2) /\
    map (fun x => x.1.1) (reads_of (w_log w2)) = [0; 2124] /\
    ~ In (PacHeader.dwFileOffset ph + 0 * Header.SIZE)
         (map (fun x => x.1.1) (reads_of (w_log w2))).
Proof.
  eexists _, _, _, _.
  split; [vm_compute; reflexivity |].
  split; [reflexivity |]. split; [reflexivity |].
  split; [vm_compute; reflexivity |].
  split; [reflexivity |].
  cbn. intros [H | [H | []]]; discriminate H.
Qed.

Lemma C9_truncated_header_aborts_witness :
  2 < 3 /\ blen stub_file < PacHeader.SIZE /\
  (exists w', read_pac_header stub_file w0 = (Ok None, w')) /\
  main 3 export_args stub_file w0
  = (Ok tt,
     mkWorld 100 ∅ [EvSeek 0; EvRead 0 2124 stub_file; EvPrint MsgPacInvalid; EvCloseInput]).
Proof.
  destruct (C9_truncated_header_aborts (P := posix) stub_file w0) as (_ & Hiff & Hmain).
  split; [reflexivity |]. split; [reflexivity |]. split.
  - apply Hiff. reflexivity.
  - exact (Hmain 3 export_args eq_refl eq_refl).
Defined.

Lemma C10_table_offset_is_header_size_witness :
  exists ph w1,
    read_pac_header relocated_file w0 = (Ok (Some ph), w1) /\
    0 < PacHeader.nFileCount ph /\
    seek_refusal PacHeader.SIZE = None /\
    exists rest,
      w_log (snd (main_walk relocated_file ph w1))
      = w_log w1 ++ EvSeek 2124 :: EvRead 2124 2580 (slice relocated_file 2124 2580) :: rest.
Proof.
  eexists _, _. split; [vm_compute; reflexivity |].
  split; [reflexivity |]. split; [reflexivity |].
  match goal with
  | |- context [main_walk _ ?ph ?w1] =>
      destruct (C10_table_offset_is_header_size (P := posix) relocated_file w1)
        as (_ & _ & _ & Hfirst);
      exact (Hfirst ph eq_refl eq_refl)
  end.
Defined.

(** ** Extraction *)

Section ExtractData.

Context {P : Platform}.

Lemma extract_data_eq file offset size output_dir filename w :
  extract_data file offset size output_dir filename w =
  match seek_refusal offset with
  | Some e => (Raise e, w)
  | None =>
      match read_refusal size with
      | Some e => (Raise e, mkWorld offset (w_files w) (w_log w ++ [EvSeek offset]))
      | None =>
          let data := slice file offset size in
          let path := os_path_join output_dir filename in
          let w2 := mkWorld (offset + blen data) (w_files w)
                            (w_log w ++ [EvSeek offset; EvRead offset size data]) in
          match makedirs_refusal output_dir with
          | Some e => (Raise e, w2)
          | None =>
              match open_refusal path with
              | Some e => (Raise e, w2)
              | None =>
                  match write_failure path data with
                  | None =>
                      (Ok tt,
                       mkWorld (offset + blen data) (<[resolve path := data]> (w_files w))
                         (w_log w ++ [EvSeek offset; EvRead offset size data;
                                      EvOpen path; EvWrite path data; EvClose path]))
                  | Some (e, n) =>
                      (Raise e,
                       mkWorld (offset + blen data)
                         (<[resolve path := take n data]> (w_files w))
                         (w_log w ++ [EvSeek offset; EvRead offset size data;
                                      EvOpen path; EvWrite path (take n data);
                                      EvClose path]))
                  end
              end
          end
      end
  end.
Proof.
  unfold extract_data, seek, read, ensure_dir, open_wb, finally, write, close, emit, bind.
  destruct (seek_refusal offset) as [e |]; [reflexivity |].
  destruct (read_refusal size) as [e |]; [reflexivity |].
  cbn [w_pos w_files w_log]. rewrite <- app_assoc. cbn [app].
  destruct (makedirs_refusal output_dir) as [e |]; [reflexivity |].
  unfold ret.
  destruct (open_refusal (os_path_join output_dir filename)) as [e |]; [reflexivity |].
  cbn [w_pos w_files w_log]. cbv zeta.
  rewrite lookup_insert_eq. cbn [default app].
  destruct (write_failure (os_path_join output_dir filename) (slice file offset size))
    as [[e n] |]; cbn [w_pos w_files w_log];
    rewrite insert_insert_eq, <- !app_assoc; reflexivity.
Qed.

(** A normal return means one file was written: the bytes the read
    returned, in the file the joined path names. *)
Lemma extract_data_Ok file offset size output_dir filename w w' :
  extract_data file offset size output_dir filename w = (Ok tt, w') ->
  let data := slice file offset size in
  let path := os_path_join output_dir filename in
  w' = mkWorld (offset + blen data) (<[resolve path := data]> (w_files w))
         (w_log w ++ [EvSeek offset; EvRead offset size data;
                      EvOpen path; EvWrite path data; EvClose path]).
Proof.
  rewrite extract_data_eq. cbv zeta.
  destruct (seek_refusal offset); [discriminate |].
  destruct (read_refusal size); [discriminate |].
  destruct (makedirs_refusal output_dir); [discriminate |].
  destruct (open_refusal (os_path_join output_dir filename)); [discriminate |].
  destruct (write_failure (os_path_join output_dir filename) (slice file offset size))
    as [[e n] |]; [discriminate |].
  intros [= <-]. reflexivity.
Qed.

(** What one call does to the files and to the log, whatever its
    outcome. *)
Lemma extract_data_effect file offset size output_dir filename w :
  let data := slice file offset size in
  let path := os_path_join output_dir filename in
  let r := extract_data file offset size output_dir filename w in
  (forall key, key <> resolve path -> w_files (snd r) !! key = w_files w !! key) /\
  (forall e, fst r = Raise e ->
     ((seek_refusal offset = Some e \/ read_refusal size = Some e \/
       makedirs_refusal output_dir = Some e \/ open_refusal path = Some e) /\
      w_files (snd r) = w_files w) \/
     (exists n, write_failure path data = Some (e, n) /\
                w_files (snd r) !! resolve path = Some (take n data))) /\
  (fst r = Ok tt -> w_files (snd r) !! resolve path = Some data) /\
  exists trace,
    w_log (snd r) = w_log w ++ trace /\ Forall not_close_input trace /\
    (opens_of trace = [] \/ opens_of trace = [path]) /\
    (fst r = Ok tt -> opens_of trace = [path]).
Proof.
  cbv zeta. rewrite extract_data_eq. cbv zeta.
  destruct (seek_refusal offset) as [e1 |] eqn:H1; cbn [fst snd].
  { split; [reflexivity |]. split; [intros e [= <-]; left; auto |]. split; [discriminate |].
    exists []. rewrite app_nil_r. split; [reflexivity |].
    split; [constructor |]. split; [left; reflexivity | discriminate]. }
  destruct (read_refusal size) as [e2 |] eqn:H2; cbn [fst snd w_files w_log].
  { split; [reflexivity |]. split; [intros e [= <-]; left; auto |]. split; [discriminate |].
    eexists [_]. split; [reflexivity |].
    split; [repeat constructor; discriminate |]. split; [left; reflexivity | discriminate]. }
  destruct (makedirs_refusal output_dir) as [e3 |] eqn:H3; cbn [fst snd w_files w_log].
  { split; [reflexivity |]. split; [intros e [= <-]; left; auto |]. split; [discriminate |].
    eexists [_; _]. split; [reflexivity |].
    split; [repeat constructor; discriminate |]. split; [left; reflexivity | discriminate]. }
  destruct (open_refusal (os_path_join output_dir filename)) as [e4 |] eqn:H4;
    cbn [fst snd w_files w_log].
  { split; [reflexivity |]. split; [intros e [= <-]; left; auto 6 |]. split; [discriminate |].
    eexists [_; _]. split; [reflexivity |].
    split; [repeat constructor; discriminate |]. split; [left; reflexivity | discriminate]. }
  destruct (write_failure (os_path_join output_dir filename) (slice file offset size))
    as [[e5 n] |] eqn:H5; cbn [fst snd w_files w_log].
  - split; [intros key Hkey; apply lookup_insert_ne; congruence |].
    split; [intros e [= <-]; right; exists n; split; [reflexivity | apply lookup_insert_eq] |].
    split; [discriminate |].
    eexists [_; _; _; _; _]. split; [reflexivity |].
    split; [repeat constructor; discriminate |]. split; [right; reflexivity | discriminate].
  - split; [intros key Hkey; apply lookup_insert_ne; congruence |].
    split; [discriminate |]. split; [intros _; apply lookup_insert_eq |].
    eexists [_; _; _; _; _]. split; [reflexivity |].
    split; [repeat constructor; discriminate |].
    split; [right; reflexivity | intros _; reflexivity].
Qed.

(** C4, as the code has it.  [extract_data] does not compare what it read
    with what was asked, and has no error of its own: whatever it raises
    is what the platform raised, at the seek, at the read, at the
    directory, at the destination or at the write.  When the platform
    fails none of the five, the call returns normally whether or not the
    file held [size] bytes from [offset] on; the destination is opened,
    written once and closed, and the file it names holds exactly the bytes
    the read returned.  When only the write fails, the destination is
    closed all the same and keeps the part that was written.  When the
    file ends first, the bytes the read returned are all the bytes from
    [offset] to the end of the file, fewer than [size]. *)
Theorem C4_short_source_is_written_without_error (file : bytes) (offset size : Z)
    (output_dir filename : pystr) (w : world) :
  0 <= offset -> 0 <= size ->
  let data := slice file offset size in
  let path := os_path_join output_dir filename in
  let r := extract_data file offset size output_dir filename w in
  (forall e, fst r = Raise e ->
     seek_refusal offset = Some e \/ read_refusal size = Some e \/
     makedirs_refusal output_dir = Some e \/ open_refusal path = Some e \/
     exists n, write_failure path data = Some (e, n)) /\
  (seek_refusal offset = None -> read_refusal size = None ->
   makedirs_refusal output_dir = None -> open_refusal path = None ->
   (write_failure path data = None ->
    r = (Ok tt,
         mkWorld (offset + blen data) (<[resolve path := data]> (w_files w))
           (w_log w ++ [EvSeek offset; EvRead offset size data;
                        EvOpen path; EvWrite path data; EvClose path]))) /\
   (forall e n, write_failure path data = Some (e, n) ->
    r = (Raise e,
         mkWorld (offset + blen data) (<[resolve path := take n data]> (w_files w))
           (w_log w ++ [EvSeek offset; EvRead offset size data;
                        EvOpen path; EvWrite path (take n data); EvClose path])))) /\
  (Z.max 0 (blen file - offset) < size ->
   blen data < size /\ data = drop (Z.to_nat offset) file).
Proof.
  intros Hoff Hsize. cbv zeta. split; [| split].
  - intros e. rewrite extract_data_eq. cbv zeta.
    destruct (seek_refusal offset) as [e1 |]; [intros [= <-]; auto |].
    destruct (read_refusal size) as [e2 |]; [intros [= <-]; auto |].
    destruct (makedirs_refusal output_dir) as [e3 |]; [intros [= <-]; auto |].
    destruct (open_refusal (os_path_join output_dir filename)) as [e4 |];
      [intros [= <-]; auto 6 |].
    destruct (write_failure (os_path_join output_dir filename) (slice file offset size))
      as [[e5 n] |]; [| discriminate].
    intros [= <-]. do 4 right. exists n. reflexivity.
  - intros Hseek Hread Hdir Hopen.
    rewrite extract_data_eq, Hseek, Hread. cbv zeta. rewrite Hdir, Hopen.
    split; [intros -> | intros e n ->]; reflexivity.
  - intros Hshort. split.
    + rewrite slice_blen by assumption. lia.
    + apply slice_to_end; lia.
Qed.

End ExtractData.

(** From [three_bytes], ten bytes are asked at offset 1 and two are
    there: the call returns and the file holds the two.  Under a file
    size limit of 4 bytes, with ten bytes asked of eight zeros, the
    write fails: the destination is closed and keeps the first four of
    the seven bytes read. *)
Lemma C4_short_source_is_written_without_error_witness :
  0 <= 1 /\ 0 <= 10 /\
  Z.max 0 (blen three_bytes - 1) < 10 /\
  extract_data three_bytes 1 10 (ascii_str "out") (ascii_str "a") w0
  = (Ok tt,
     mkWorld 3 {[ resolve (ascii_str "out/a") := [Byte.x02; Byte.x03] ]}
       [EvSeek 1; EvRead 1 10 [Byte.x02; Byte.x03]; EvOpen (ascii_str "out/a");
        EvWrite (ascii_str "out/a") [Byte.x02; Byte.x03]; EvClose (ascii_str "out/a")]) /\
  @extract_data limited (zeros 8) 1 10 (ascii_str "out") (ascii_str "a") w0
  = (Raise OSError,
     mkWorld 8 {[ @resolve limited (ascii_str "out/a") := zeros 4 ]}
       [EvSeek 1; EvRead 1 10 (zeros 7); EvOpen (ascii_str "out/a");
        EvWrite (ascii_str "out/a") (zeros 4); EvClose (ascii_str "out/a")]).
Proof.
  split; [lia |]. split; [lia |]. split; [reflexivity |]. split.
  - destruct (C4_short_source_is_written_without_error (P := posix) three_bytes 1 10
                (ascii_str "out") (ascii_str "a") w0) as (_ & Hrun & _); [lia | lia |].
    destruct (Hrun eq_refl eq_refl eq_refl eq_refl) as [Hok _].
    exact (Hok eq_refl).
  - destruct (C4_short_source_is_written_without_error (P := limited) (zeros 8) 1 10
                (ascii_str "out") (ascii_str "a") w0) as (_ & Hrun & _); [lia | lia |].
    destruct (Hrun eq_refl eq_refl eq_refl eq_refl) as [_ Hfail].
    exact (Hfail OSError 4%nat eq_refl).
Defined.

(** The same extraction: the source yields 2 of the 10 bytes asked, and
    the call returns normally. *)
Lemma C4_no_ShortRead_counterexample :
  blen (slice three_bytes 1 10) < 10 /\
  exists w',
    extract_data three_bytes 1 10 (ascii_str "out") (ascii_str "a") w0 = (Ok tt, w') /\
    w_files w' !! resolve (ascii_str "out/a") = Some [Byte.x02; Byte.x03].
Proof.
  split; [reflexivity |]. eexists. split; [vm_compute; reflexivity |].
  vm_compute. reflexivity.
Qed.

(** ** Lookup by identifier *)

Lemma str_eqb_eq a b : str_eqb a b = true <-> a = b.
Proof.
  revert b. induction a as [| x a IH]; intros [| y b]; cbn [str_eqb];
    try (split; [discriminate | discriminate]); [split; reflexivity |].
  rewrite andb_true_iff, Z.eqb_eq, IH. split.
  - intros [-> ->]. reflexivity.
  - intros [= -> ->]. split; reflexivity.
Qed.

Lemma str_eqb_neq a b : str_eqb a b = false <-> a <> b.
Proof.
  rewrite <- str_eqb_eq. destruct (str_eqb a b); split; congruence.
Qed.

Section Lookup.

Context {P : Platform}.

Lemma extract_loop_skip file pre rest wanted output_dir :
  Forall (no_match wanted) pre ->
  extract_loop file (pre ++ rest) wanted output_dir
  = extract_loop file rest wanted output_dir.
Proof.
  induction 1 as [| h pre [Hid Hname] _ IH]; [reflexivity |].
  cbn [app extract_loop].
  apply str_eqb_neq in Hid. apply str_eqb_neq in Hname. rewrite Hid, Hname.
  exact IH.
Qed.

(** C6, as the code has it.  For a non-empty identifier, the extract block
    takes the first entry in table order whose [szFileID] or [szFileName]
    is that very string, extracts it under the identifier and stops; when
    no entry has it, the block only reports "not found": no file is
    touched.  An absent or empty identifier is no request at all. *)
Theorem C6_lookup_takes_first_match (file : bytes) (headers : list Header.t)
    (wanted output_dir : pystr) (w : world) :
  wanted <> [] ->
  (forall pre h post,
     headers = pre ++ h :: post ->
     Forall (no_match wanted) pre ->
     Header.szFileID h = wanted \/ Header.szFileName h = wanted ->
     main_extract file headers (Some wanted) output_dir w
     = (run extract_data file (Header.dwDataOffset h) (Header.nFileSize h)
              output_dir wanted;
        print (MsgExtracted wanted output_dir)) w) /\
  (Forall (no_match wanted) headers ->
     main_extract file headers (Some wanted) output_dir w
     = (Ok tt, mkWorld (w_pos w) (w_files w) (w_log w ++ [EvPrint (MsgNotFound wanted)]))) /\
  main_extract file headers None output_dir w = (Ok tt, w) /\
  main_extract file headers (Some []) output_dir w = (Ok tt, w).
Proof.
  intros Hne. unfold main_extract.
  destruct wanted as [| c wanted]; [congruence |]. cbn [truthy].
  split; [| split; [| split; reflexivity]].
  - intros pre h post -> Hpre Hmatch. rewrite extract_loop_skip by assumption.
    cbn [extract_loop].
    destruct (str_eqb (Header.szFileID h) (c :: wanted)) eqn:Hid.
    + apply str_eqb_eq in Hid. cbn [orb]. rewrite Hid. reflexivity.
    + destruct Hmatch as [Hm | Hm]; [apply str_eqb_neq in Hid; congruence |].
      cbn [orb]. assert (Hname := Hm). apply str_eqb_eq in Hname. rewrite Hname, Hm.
      reflexivity.
  - intros Hnone.
    rewrite <- (app_nil_r headers). rewrite extract_loop_skip by assumption.
    reflexivity.
Qed.

End Lookup.

(** ["a"] is asked for and both entries of [duplicate_file] carry it: the
    first one is extracted. *)
Lemma C6_lookup_takes_first_match_witness :
  exists h1 h2,
    Header.init (named_record name_a 0 0 1 1076) = Ok h1 /\
    Header.init (named_record name_a 0 0 2 1076) = Ok h2 /\
    ascii_str "a" <> [] /\
    Header.szFileID h1 = ascii_str "a" /\
    main_extract duplicate_file [h1; h2] (Some (ascii_str "a")) (ascii_str "out") w0
    = (run extract_data duplicate_file (Header.dwDataOffset h1) (Header.nFileSize h1)
             (ascii_str "out") (ascii_str "a");
       print (MsgExtracted (ascii_str "a") (ascii_str "out"))) w0.
Proof.
  eexists _, _.
  split; [vm_compute; reflexivity |]. split; [vm_compute; reflexivity |].
  split; [discriminate |]. split; [reflexivity |].
  match goal with
  | |- main_extract _ [?h1; ?h2] _ _ _ = _ =>
      apply (proj1 (C6_lookup_takes_first_match (P := posix) duplicate_file [h1; h2]
                      (ascii_str "a") (ascii_str "out") w0 ltac:(discriminate))
               [] h1 [h2] eq_refl (List.Forall_nil _) (or_introl eq_refl))
  end.
Defined.

(** The empty identifier is asked for and the only entry has an empty
    [szFileID]: nothing is extracted and nothing is reported; nor is
    "not found" reported when there is no entry at all. *)
Lemma C6_empty_identifier_counterexample :
  exists h,
    Header.init (entry_record 0 0 1 16) = Ok h /\
    Header.szFileID h = [] /\
    main_extract three_bytes [h] (Some []) (ascii_str "out") w0 = (Ok tt, w0) /\
    main_extract three_bytes [] (Some []) (ascii_str "out") w0 = (Ok tt, w0).
Proof.
  eexists. split; [vm_compute; reflexivity |].
  split; [reflexivity |]. split; reflexivity.
Qed.

(** ** Export of all partitions *)

Section ExportAll.

Context {P : Platform}.

Lemma foldl_insert_other (file : bytes) (output_dir key : pystr) (hs : list Header.t) :
  forall m : gmap pystr bytes,
  Forall (fun h => resolve (export_path output_dir h) <> key) hs ->
  foldl (fun m h => <[resolve (export_path output_dir h) := payload file h]> m) m hs !! key
  = m !! key.
Proof.
  induction hs as [| h hs IH]; intros m Hall; [reflexivity |].
  inversion Hall as [| ? ? Hh Hrest]; subst. cbn [foldl].
  rewrite IH by assumption. apply lookup_insert_ne. exact Hh.
Qed.

Lemma export_loop_Ok file output_dir headers : forall w w',
  export_loop file headers output_dir w = (Ok tt, w') ->
  w_files w'
  = foldl (fun m h => <[resolve (export_path output_dir h) := payload file h]> m)
      (w_files w) headers /\
  exists trace,
    w_log w' = w_log w ++ trace /\
    opens_of trace = map (export_path output_dir) headers.
Proof.
  induction headers as [| h rest IH]; intros w w'; cbn [export_loop].
  - intros [= <-]. split; [reflexivity |]. exists []. rewrite app_nil_r. split; reflexivity.
  - unfold bind at 1.
    destruct (extract_data file (Header.dwDataOffset h) (Header.nFileSize h) output_dir
                (export_identifier h) w) as [[[] | e] w1] eqn:Hextract; [| discriminate].
    apply extract_data_Ok in Hextract. cbv zeta in Hextract.
    unfold bind at 1, print, emit.
    intros Hrest. apply IH in Hrest. destruct Hrest as (Hfiles & trace & Hlog & Hopens).
    subst w1. cbn [w_files w_log w_pos] in *. split.
    + rewrite Hfiles. reflexivity.
    + exists ([EvSeek (Header.dwDataOffset h);
               EvRead (Header.dwDataOffset h) (Header.nFileSize h) (payload file h);
               EvOpen (export_path output_dir h);
               EvWrite (export_path output_dir h) (payload file h);
               EvClose (export_path output_dir h);
               EvPrint (MsgExported (export_identifier h) output_dir)] ++ trace).
      split.
      * rewrite Hlog. rewrite <- !app_assoc. reflexivity.
      * unfold opens_of in *. rewrite omap_app, Hopens. reflexivity.
Qed.

Lemma export_loop_cons file output_dir h rest w :
  export_loop file (h :: rest) output_dir w =
  match extract_data file (Header.dwDataOffset h) (Header.nFileSize h) output_dir
          (export_identifier h) w with
  | (Ok _, w1) =>
      export_loop file rest output_dir
        (mkWorld (w_pos w1) (w_files w1)
           (w_log w1 ++ [EvPrint (MsgExported (export_identifier h) output_dir)]))
  | (Raise e, w1) => (Raise e, w1)
  end.
Proof.
  cbn [export_loop]. unfold bind, print, emit.
  destruct (extract_data file (Header.dwDataOffset h) (Header.nFileSize h) output_dir
              (export_identifier h) w) as [[[] | e] w1]; reflexivity.
Qed.

(** Whatever the outcome, the destinations opened are those of the first
    entries of the table, in order. *)
Lemma export_loop_opens file output_dir headers : forall w,
  exists trace (done : nat),
    w_log (snd (export_loop file headers output_dir w)) = w_log w ++ trace /\
    opens_of trace = map (export_path output_dir) (take done headers) /\
    (fst (export_loop file headers output_dir w) = Ok tt -> done = length headers).
Proof.
  induction headers as [| h rest IH]; intros w.
  - exists [], 0%nat. cbn [export_loop]. rewrite app_nil_r. repeat split.
  - rewrite export_loop_cons.
    destruct (extract_data_effect file (Header.dwDataOffset h) (Header.nFileSize h)
                output_dir (export_identifier h) w)
      as (_ & _ & _ & t1 & Hlog1 & _ & Hopens1 & Hok1).
    destruct (extract_data file (Header.dwDataOffset h) (Header.nFileSize h) output_dir
                (export_identifier h) w) as [[[] | e] w1]; cbn [fst snd] in *.
    + match goal with
      | |- context [export_loop file rest output_dir ?w2] =>
          set (w2' := w2); destruct (IH w2') as (t2 & done & Hlog2 & Hopens2 & Hok2)
      end.
      exists (t1 ++ [EvPrint (MsgExported (export_identifier h) output_dir)] ++ t2), (S done).
      split; [rewrite Hlog2; subst w2'; cbn [w_log];
              rewrite Hlog1, <- !app_assoc; reflexivity |]. split.
      * unfold opens_of in *. rewrite !omap_app, (Hok1 eq_refl), Hopens2. reflexivity.
      * intros Hres. cbn [length]. f_equal. exact (Hok2 Hres).
    + destruct Hopens1 as [Hnone | Hone].
      * exists t1, 0%nat. split; [exact Hlog1 |]. split; [exact Hnone | discriminate].
      * exists t1, 1%nat. split; [exact Hlog1 |]. split; [exact Hone | discriminate].
Qed.

(** C7, as the code has it.  Export-all names the destination of an entry
    [os.path.join(output_dir, identifier)], the identifier being
    [szFileID] when that is not empty and [szFileName] otherwise: the name
    depends on the entry alone, never on its index, so entries with the
    same identifier, and all entries with both names blank, get one and
    the same destination.  Whatever the outcome of the export, the
    destinations it opened are those of the first entries of the table,
    in table order, one per entry, and all of them when it returned.
    When it returned, and no destination names the input file, every
    file holds the payload of the last entry whose destination names it:
    an entry that shares its file with a later one is overwritten. *)
Theorem C7_export_names_by_identifier_last_wins (file : bytes) (headers : list Header.t)
    (output_dir : pystr) (w : world) :
  (forall h, export_path output_dir h = os_path_join output_dir (export_identifier h)) /\
  (forall h1 h2,
     export_identifier h1 = export_identifier h2 ->
     export_path output_dir h1 = export_path output_dir h2) /\
  (forall h,
     Header.szFileID h = [] -> Header.szFileName h = [] ->
     export_path output_dir h = os_path_join output_dir []) /\
  (exists trace (done : nat),
     w_log (snd (export_loop file headers output_dir w)) = w_log w ++ trace /\
     opens_of trace = map (export_path output_dir) (take done headers) /\
     (fst (export_loop file headers output_dir w) = Ok tt -> done = length headers)) /\
  (fst (export_loop file headers output_dir w) = Ok tt ->
   Forall (fun h => names_input (export_path output_dir h) = false) headers ->
   w_files (snd (export_loop file headers output_dir w))
   = foldl (fun m h => <[resolve (export_path output_dir h) := payload file h]> m)
       (w_files w) headers /\
   forall pre h post,
     headers = pre ++ h :: post ->
     Forall (fun h' => resolve (export_path output_dir h')
                       <> resolve (export_path output_dir h)) post ->
     w_files (snd (export_loop file headers output_dir w))
       !! resolve (export_path output_dir h)
     = Some (payload file h)).
Proof.
  split; [reflexivity |]. split.
  { intros h1 h2 Heq. unfold export_path. fold (export_identifier h1).
    fold (export_identifier h2). rewrite Heq. reflexivity. }
  split.
  { intros h Hid Hname. unfold export_path. rewrite Hid, Hname. reflexivity. }
  split; [apply export_loop_opens |].
  intros Hres _.
  destruct (export_loop file headers output_dir w) as [r w'] eqn:Hrun.
  cbn [fst snd] in *. subst r.
  destruct (export_loop_Ok _ _ _ _ _ Hrun) as (Hfiles & _).
  split; [exact Hfiles |].
  intros pre h post -> Hpost. rewrite Hfiles, foldl_app. cbn [foldl].
  rewrite foldl_insert_other by assumption. apply lookup_insert_eq.
Qed.

End ExportAll.

(** The entries of [alias_file] are named ["a"] and ["./a"]: two
    destinations, one file; after the export it holds the second
    payload. *)
Lemma C7_export_names_by_identifier_last_wins_witness :
  exists h1 h2,
    Header.init (named_record name_a 0 0 1 1076) = Ok h1 /\
    Header.init (named_record name_dot_a 0 0 2 1076) = Ok h2 /\
    fst (export_loop alias_file [h1; h2] (ascii_str "out") w0) = Ok tt /\
    Forall (fun h => names_input (export_path (ascii_str "out") h) = false) [h1; h2] /\
    export_path (ascii_str "out") h1 = ascii_str "out/a" /\
    export_path (ascii_str "out") h2 = ascii_str "out/./a" /\
    resolve (export_path (ascii_str "out") h1) = resolve (export_path (ascii_str "out") h2) /\
    w_files (snd (export_loop alias_file [h1; h2] (ascii_str "out") w0))
      !! resolve (export_path (ascii_str "out") h2)
    = Some (payload alias_file h2).
Proof.
  eexists _, _.
  split; [vm_compute; reflexivity |]. split; [vm_compute; reflexivity |].
  match goal with
  | |- fst (export_loop ?f [?h1; ?h2] ?o ?w) = Ok tt /\ _ =>
      assert (Hres : fst (export_loop f [h1; h2] o w) = Ok tt) by (vm_compute; reflexivity);
      assert (Hin : Forall (fun h => names_input (export_path o h) = false) [h1; h2])
        by (repeat constructor);
      split; [exact Hres |]; split; [exact Hin |];
      do 3 (split; [vm_compute; reflexivity |]);
      pose proof (C7_export_names_by_identifier_last_wins (P := posix) f [h1; h2] o w)
        as (_ & _ & _ & _ & Hlast);
      exact (proj2 (Hlast Hres Hin) [h1] h2 [] eq_refl (List.Forall_nil _))
  end.
Defined.

(** Export-all on [blank_file], whose two entries have blank names, and on
    [duplicate_file], whose two entries are both named ["a"].  The blank
    entries get the same destination, the directory itself, which cannot
    be opened: the run stops with the exception and has written no file.
    The entries named ["a"] have the payloads [02] and [02 00]; two files
    are opened at [out/a], and only the second payload is left. *)
Lemma C7_blank_and_duplicate_names_counterexample :
  (exists ph w1 h1 h2 w2 w3,
     read_pac_header blank_file w0 = (Ok (Some ph), w1) /\
     main_walk blank_file ph w1 = (Ok [h1; h2], w2) /\
     Header.szFileID h1 = [] /\ Header.szFileName h1 = [] /\
     Header.szFileID h2 = [] /\ Header.szFileName h2 = [] /\
     payload blank_file h1 <> payload blank_file h2 /\
     export_path (ascii_str "out") h1 = export_path (ascii_str "out") h2 /\
     main 3 export_args blank_file w0 = (Raise OSError, w3) /\
     w_files w3 = ∅) /\
  (exists ph w1 h1 h2 w2 w3,
     read_pac_header duplicate_file w0 = (Ok (Some ph), w1) /\
     main_walk duplicate_file ph w1 = (Ok [h1; h2], w2) /\
     payload duplicate_file h1 = [Byte.x02] /\
     payload duplicate_file h2 = [Byte.x02; Byte.x00] /\
     main 3 export_args duplicate_file w0 = (Ok tt, w3) /\
     opens_of (w_log w3) = [ascii_str "out/a"; ascii_str "out/a"] /\
     w_files w3 = {[ resolve (ascii_str "out/a") := [Byte.x02; Byte.x00] ]}).
Proof.
  split.
  - eexists _, _, _, _, _, _.
    split; [vm_compute; reflexivity |]. split; [vm_compute; reflexivity |].
    do 4 (split; [reflexivity |]).
    split; [vm_compute; discriminate |]. split; [reflexivity |].
    split; [vm_compute; reflexivity |]. reflexivity.
  - eexists _, _, _, _, _, _.
    split; [vm_compute; reflexivity |]. split; [vm_compute; reflexivity |].
    split; [vm_compute; reflexivity |]. split; [vm_compute; reflexivity |].
    split; [vm_compute; reflexivity |]. split; [vm_compute; reflexivity |].
    vm_compute. reflexivity.
Qed.

(** ** Text fields *)

Lemma in_chars_NUL c : in_chars NUL c = (c =? 0).
Proof.
  unfold in_chars, NUL. cbn [existsb]. apply orb_false_r.
Qed.

Lemma lstrip_NUL_split s :
  exists front, s = front ++ lstrip NUL s /\ Forall (eq 0) front.
Proof.
  induction s as [| c s (front & Hs & Hfront)]; cbn [lstrip].
  - exists []. split; [reflexivity | constructor].
  - rewrite in_chars_NUL. destruct (Z.eqb_spec c 0) as [-> | Hc].
    + exists (0 :: front). cbn [app]. rewrite <- Hs. split; [reflexivity |].
      constructor; [reflexivity | assumption].
    + exists []. split; [reflexivity | constructor].
Qed.

Lemma lstrip_NUL_head s r : lstrip NUL s <> 0 :: r.
Proof.
  induction s as [| c s IH]; cbn [lstrip]; [discriminate |].
  rewrite in_chars_NUL. destruct (Z.eqb_spec c 0) as [-> | Hc]; [exact IH |].
  intros [= -> _]. congruence.
Qed.

Lemma rstrip_NUL_split s :
  exists back, s = rstrip NUL s ++ back /\ Forall (eq 0) back.
Proof.
  unfold rstrip. destruct (lstrip_NUL_split (rev s)) as (front & Hs & Hfront).
  exists (rev front). split.
  - rewrite <- rev_app_distr, <- Hs, rev_involutive. reflexivity.
  - apply Forall_rev. exact Hfront.
Qed.

Lemma rstrip_NUL_last s r : rstrip NUL s <> r ++ [0].
Proof.
  unfold rstrip. intros Heq. apply (f_equal (@rev Z)) in Heq.
  rewrite rev_involutive, rev_app_distr in Heq. cbn [rev app] in Heq.
  exact (lstrip_NUL_head _ _ Heq).
Qed.

(** [strip('\x00')] removes the NULs at both ends and nothing else. *)
Lemma strip_NUL_trimmed s : trimmed_of s (strip NUL s).
Proof.
  unfold strip.
  destruct (lstrip_NUL_split s) as (front & Hs & Hfront).
  destruct (rstrip_NUL_split (lstrip NUL s)) as (back & Hu & Hback).
  exists front, back. split; [rewrite <- Hu; exact Hs |].
  split; [exact Hfront |]. split; [exact Hback |]. split.
  - intros r Heq. rewrite Heq in Hu. cbn [app] in Hu.
    exact (lstrip_NUL_head _ _ Hu).
  - intros r. apply rstrip_NUL_last.
Qed.

(** C8, as the code has it.  When the archive header decodes, its version,
    product name and product version are the UTF-16LE decodings of the
    blocks at bytes 0..44, 52..564 and 564..1076, with the NULs removed at
    both ends: leading NULs go as well as trailing ones, and NULs between
    other characters stay. *)
Theorem C8_text_fields_trimmed_at_both_ends (data : bytes) (ph : PacHeader.t) :
  PacHeader.init data = Ok ph ->
  exists version name product_version,
    decode_utf16le (slice data 0 44) = Ok version /\
    decode_utf16le (slice data 52 512) = Ok name /\
    decode_utf16le (slice data 564 512) = Ok product_version /\
    PacHeader.szVersion ph = strip NUL version /\
    PacHeader.szPrdName ph = strip NUL name /\
    PacHeader.szPrdVersion ph = strip NUL product_version /\
    trimmed_of version (PacHeader.szVersion ph) /\
    trimmed_of name (PacHeader.szPrdName ph) /\
    trimmed_of product_version (PacHeader.szPrdVersion ph).
Proof.
  intros Hinit.
  destruct (PacHeader_init_Ok data ph Hinit)
    as (_ & _ & _ & (v & Ev & Hv) & (n & En & Hn) & (pv & Epv & Hpv)).
  exists v, n, pv. rewrite Hv, Hn, Hpv.
  repeat split; try assumption; apply strip_NUL_trimmed.
Qed.

(** The version block of [leading_nul_block] decodes to a NUL, ["A"] and
    twenty NULs; the field is ["A"]. *)
Lemma C8_text_fields_trimmed_at_both_ends_witness :
  exists ph version,
    PacHeader.init leading_nul_block = Ok ph /\
    decode_utf16le (slice leading_nul_block 0 44) = Ok version /\
    version = 0 :: 65 :: replicate 20 0 /\
    PacHeader.szVersion ph = [65] /\
    trimmed_of version (PacHeader.szVersion ph).
Proof.
  eexists _, _.
  split; [vm_compute; reflexivity |]. split; [vm_compute; reflexivity |].
  split; [reflexivity |]. split; [reflexivity |].
  match goal with
  | |- trimmed_of _ (PacHeader.szVersion ?ph) =>
      destruct (C8_text_fields_trimmed_at_both_ends leading_nul_block ph)
        as (v & n & pv & Ev & _ & _ & _ & _ & _ & Hv & _); [vm_compute; reflexivity |];
      vm_compute in Ev; injection Ev as <-; exact Hv
  end.
Defined.

(** On [leading_nul_block] the decoded version text is ["A"], while
    removing the trailing NULs only would leave the leading NUL in. *)
Lemma C8_leading_nul_removed_counterexample :
  exists ph version,
    PacHeader.init leading_nul_block = Ok ph /\
    decode_utf16le (slice leading_nul_block 0 44) = Ok version /\
    rstrip NUL version = [0; 65] /\
    PacHeader.szVersion ph = [65] /\
    PacHeader.szVersion ph <> rstrip NUL version.
Proof.
  eexists _, _.
  split; [vm_compute; reflexivity |]. split; [vm_compute; reflexivity |].
  split; [reflexivity |]. split; [reflexivity |].
  vm_compute. discriminate.
Qed.

(** C5.  The archive header decoder is strict: on [surrogate_block],
    2124 bytes whose version field starts with a lone surrogate,
    [PacHeader.__init__] raises [UnicodeDecodeError], and [main] ends with
    that exception after reading the header and closing the file, without
    walking the table or writing anything. *)
Theorem C5_malformed_utf16_aborts_header_decode :
  blen surrogate_block = PacHeader.SIZE /\
  decode_utf16le (slice surrogate_block 0 44) = Raise UnicodeDecodeError /\
  PacHeader.init surrogate_block = Raise UnicodeDecodeError /\
  main 3 export_args surrogate_block w0
  = (Raise UnicodeDecodeError,
     mkWorld 2124 ∅ [EvSeek 0; EvRead 0 2124 surrogate_block; EvCloseInput]).
Proof.
  split; [reflexivity |]. split; [reflexivity |].
  split; [vm_compute; reflexivity |]. vm_compute. reflexivity.
Qed.

(** * Further properties of the decoders *)

Lemma Header_init_all data h :
  Header.init data = Ok h ->
  Header.dwSize h = le_uint (slice data 0 4) /\
  Header.szFileVersion h = strip NUL (decode_ascii_ignore (slice data 1028 504)) /\
  Header.nFileFlag h = le_uint (slice data 1544 4) /\
  Header.nCheckFlag h = le_uint (slice data 1548 4) /\
  Header.dwCanOmitFlag h = le_uint (slice data 1556 4) /\
  Header.dwAddrNum h = le_uint (slice data 1560 4) /\
  Header.dwAddr h = words_at data 1564 5 /\
  Header.dwReserved h = words_at data 1584 249.
Proof.
  unfold Header.init, struct_unpack. open_init Header_parse.
  cbv -[slice le_uint decode_utf16le decode_ascii_ignore strip NUL].
  destruct (decode_utf16le (slice data 4 512)) as [s1 |] eqn:E1; [| discriminate].
  destruct (decode_utf16le (slice data 516 512)) as [s2 |] eqn:E2; [| discriminate].
  intros [= <-]. cbn. repeat split.
Qed.

Lemma PacHeader_init_all data ph :
  PacHeader.init data = Ok ph ->
  PacHeader.dwHiSize ph = le_uint (slice data 44 4) /\
  PacHeader.dwLoSize ph = le_uint (slice data 48 4) /\
  PacHeader.dwMode ph = le_uint (slice data 1084 4) /\
  PacHeader.dwFlashType ph = le_uint (slice data 1088 4) /\
  PacHeader.dwNandStrategy ph = le_uint (slice data 1092 4) /\
  PacHeader.dwIsNvBackup ph = le_uint (slice data 1096 4) /\
  PacHeader.dwNandPageType ph = le_uint (slice data 1100 4) /\
  PacHeader.szPrdAlias ph = VInt (le_uint (slice data 1104 4)) /\
  (exists s, decode_ascii (slice data 1108 200) = Ok s /\
             PacHeader.dwOmaDmProductFlag ph = strip NUL s) /\
  PacHeader.dwIsOmaDM ph = le_uint (slice data 1308 4) /\
  PacHeader.dwIsPreload ph = le_uint (slice data 1312 4) /\
  PacHeader.dwReserved ph = words_at data 1316 200 /\
  PacHeader.dwMagic ph = le_uint (slice data 2116 4) /\
  PacHeader.wCRC1 ph = le_uint (slice data 2120 2) /\
  PacHeader.wCRC2 ph = le_uint (slice data 2122 2).
Proof.
  unfold PacHeader.init, struct_unpack. open_init PacHeader_parse.
  cbv -[slice le_uint decode_utf16le decode_ascii strip NUL].
  destruct (decode_utf16le (slice data 0 44)) as [s1 |] eqn:E1; [| discriminate].
  destruct (decode_utf16le (slice data 52 512)) as [s2 |] eqn:E2; [| discriminate].
  destruct (decode_utf16le (slice data 564 512)) as [s3 |] eqn:E3; [| discriminate].
  destruct (decode_ascii (slice data 1108 200)) as [s4 |] eqn:E4; [| discriminate].
  intros [= <-]. cbn.
  repeat split; try reflexivity. eexists; split; reflexivity.
Qed.

Lemma struct_unpack_wrong_size fmt items data :
  parse_format fmt = Some items ->
  blen data <> items_size items ->
  struct_unpack fmt data = Raise StructError.
Proof.
  intros Hparse Hne. unfold struct_unpack. rewrite Hparse.
  destruct (Z.eqb_spec (blen data) (items_size items)); [contradiction | reflexivity].
Qed.

(** X1.  What [Header.__init__] does with a buffer: [struct.error] when it
    is not 2580 bytes long; otherwise an entry exactly when the two name
    blocks (bytes 4..516 and 516..1028) are well-formed UTF-16, and
    [UnicodeDecodeError] when one of them is not.  No other byte of the
    record can make the decode fail. *)
Theorem X1_entry_decode_outcome (data : bytes) :
  (blen data <> Header.SIZE -> Header.init data = Raise StructError) /\
  (blen data = Header.SIZE ->
   if utf16_ok (slice data 4 512) && utf16_ok (slice data 516 512)
   then exists h, Header.init data = Ok h
   else Header.init data = Raise UnicodeDecodeError).
Proof.
  split.
  - intros Hne. unfold Header.init.
    rewrite (struct_unpack_wrong_size _ _ _ Header_parse) by exact Hne. reflexivity.
  - intros Hlen. unfold utf16_ok.
    destruct (decode_utf16le (slice data 4 512)) as [s1 | e1] eqn:E1;
      [destruct (decode_utf16le (slice data 516 512)) as [s2 | e2] eqn:E2 |]; cbn [andb].
    + exact (Header_init_Ok_intro data s1 s2 Hlen E1 E2).
    + destruct (Header_init_total data Hlen) as [[h Hh] | Hraise]; [| exact Hraise].
      destruct (Header_init_Ok data h Hh) as (_ & _ & _ & _ & _ & _ & (s & Hs & _)).
      congruence.
    + destruct (Header_init_total data Hlen) as [[h Hh] | Hraise]; [| exact Hraise].
      destruct (Header_init_Ok data h Hh) as (_ & _ & _ & _ & _ & (s & Hs & _) & _).
      congruence.
Qed.

(** X2.  What [PacHeader.__init__] does with a buffer: [struct.error]
    when it is not 2124 bytes long; otherwise an archive header exactly
    when the three UTF-16 blocks (bytes 0..44, 52..564, 564..1076) are
    well-formed and the 200 bytes at 1108 are all ASCII, and
    [UnicodeDecodeError] when not. *)
Theorem X2_archive_header_decode_outcome (data : bytes) :
  (blen data <> PacHeader.SIZE -> PacHeader.init data = Raise StructError) /\
  (blen data = PacHeader.SIZE ->
   if utf16_ok (slice data 0 44) && utf16_ok (slice data 52 512)
      && utf16_ok (slice data 564 512) && forallb is_ascii (slice data 1108 200)
   then exists ph, PacHeader.init data = Ok ph
   else PacHeader.init data = Raise UnicodeDecodeError).
Proof.
  assert (Hraise : forall bs e, decode_utf16le bs = Raise e -> e = UnicodeDecodeError).
  { intros bs e. unfold decode_utf16le.
    destruct (utf16le_units bs) as [u |]; [| congruence].
    destruct (utf16_points u); congruence. }
  split.
  - intros Hne. unfold PacHeader.init.
    rewrite (struct_unpack_wrong_size _ _ _ PacHeader_parse) by exact Hne. reflexivity.
  - intros Hlen. unfold utf16_ok.
    destruct (decode_utf16le (slice data 0 44)) as [s1 | e1] eqn:E1;
      destruct (decode_utf16le (slice data 52 512)) as [s2 | e2] eqn:E2;
      destruct (decode_utf16le (slice data 564 512)) as [s3 | e3] eqn:E3;
      destruct (forallb is_ascii (slice data 1108 200)) eqn:E4; cbn [andb];
      try (pose proof (Hraise _ _ E1) as ->); try (pose proof (Hraise _ _ E2) as ->);
      try (pose proof (Hraise _ _ E3) as ->);
      unfold PacHeader.init, struct_unpack; (open_init PacHeader_parse;
        [| exfalso; rewrite Hlen in *; vm_compute in n; congruence]);
      cbv -[slice le_uint decode_utf16le decode_ascii strip NUL];
      unfold decode_ascii; rewrite ?E1, ?E2, ?E3, ?E4;
      try reflexivity; eexists; reflexivity.
Qed.

Lemma words_at_length data off n : length (words_at data off n) = n.
Proof.
  unfold words_at. rewrite length_map, length_seq. reflexivity.
Qed.

Lemma le_uint_u16 data off : 0 <= le_uint (slice data off 2) < 2 ^ 16.
Proof.
  change (2 ^ 16) with (256 ^ 2). apply le_uint_slice_range. lia.
Qed.

Lemma le_uint_u32 data off : 0 <= le_uint (slice data off 4) < 2 ^ 32.
Proof.
  change (2 ^ 32) with (256 ^ 4). apply le_uint_slice_range. lia.
Qed.

(** X3.  Where the archive header's fields come from.  The integers are
    the little-endian words at fixed bytes of the block; [szPrdAlias] is
    the 32-bit word at byte 1104 (an integer, not text); [dwReserved] is
    the 200 words from byte 1316 on; [dwMagic] is the word at byte 2116
    and the two CRCs are the 16-bit words at 2120 and 2122. *)
Theorem X3_archive_header_layout (data : bytes) (ph : PacHeader.t) :
  PacHeader.init data = Ok ph ->
  PacHeader.dwHiSize ph = le_uint (slice data 44 4) /\
  PacHeader.dwLoSize ph = le_uint (slice data 48 4) /\
  PacHeader.nFileCount ph = le_uint (slice data 1076 4) /\
  PacHeader.dwFileOffset ph = le_uint (slice data 1080 4) /\
  PacHeader.dwMode ph = le_uint (slice data 1084 4) /\
  PacHeader.dwFlashType ph = le_uint (slice data 1088 4) /\
  PacHeader.dwNandStrategy ph = le_uint (slice data 1092 4) /\
  PacHeader.dwIsNvBackup ph = le_uint (slice data 1096 4) /\
  PacHeader.dwNandPageType ph = le_uint (slice data 1100 4) /\
  PacHeader.szPrdAlias ph = VInt (le_uint (slice data 1104 4)) /\
  PacHeader.dwIsOmaDM ph = le_uint (slice data 1308 4) /\
  PacHeader.dwIsPreload ph = le_uint (slice data 1312 4) /\
  PacHeader.dwReserved ph = words_at data 1316 200 /\
  length (PacHeader.dwReserved ph) = 200%nat /\
  PacHeader.dwMagic ph = le_uint (slice data 2116 4) /\
  PacHeader.wCRC1 ph = le_uint (slice data 2120 2) /\
  PacHeader.wCRC2 ph = le_uint (slice data 2122 2) /\
  0 <= PacHeader.nFileCount ph < 2 ^ 32 /\
  0 <= PacHeader.wCRC1 ph < 2 ^ 16 /\
  0 <= PacHeader.wCRC2 ph < 2 ^ 16.
Proof.
  intros Hinit.
  destruct (PacHeader_init_Ok data ph Hinit) as (_ & Hcount & Hoff & _).
  destruct (PacHeader_init_all data ph Hinit)
    as (H1 & H2 & H3 & H4 & H5 & H6 & H7 & H8 & _ & H9 & H10 & H11 & H12 & H13 & H14).
  rewrite H11, H13, H14, Hcount, words_at_length.
  repeat split; try assumption; try apply le_uint_u16; apply le_uint_u32.
Qed.

Lemma X3_archive_header_layout_witness :
  exists ph,
    PacHeader.init (pac_block 3 2124) = Ok ph /\
    PacHeader.nFileCount ph = le_uint (slice (pac_block 3 2124) 1076 4) /\
    PacHeader.nFileCount ph = 3 /\ PacHeader.dwFileOffset ph = 2124.
Proof.
  eexists. split; [vm_compute; reflexivity |].
  match goal with
  | |- PacHeader.nFileCount ?ph = _ /\ _ =>
      destruct (X3_archive_header_layout (pac_block 3 2124) ph) as (_ & _ & Hc & _);
      [vm_compute; reflexivity |]; split; [exact Hc |]; split; reflexivity
  end.
Defined.

(** ** Text blocks *)

Lemma utf16le_units_spec : forall bs us,
  utf16le_units bs = Some us ->
  length bs = (2 * length us)%nat /\ Forall (fun u => 0 <= u < 65536) us.
Proof.
  intros bs. remember (length bs) as n eqn:Hn. revert bs Hn.
  induction n as [n IH] using lt_wf_ind. intros bs Hn us. subst n.
  destruct bs as [| lo [| hi rest]]; cbn [utf16le_units].
  - intros [= <-]. split; [reflexivity | constructor].
  - discriminate.
  - destruct (utf16le_units rest) as [us' |] eqn:Hrest; [| discriminate].
    intros [= <-].
    destruct (IH (length rest) ltac:(cbn [length]; lia) rest eq_refl us' Hrest)
      as [Hlen Hall].
    split; [cbn [length]; lia |].
    constructor; [| exact Hall].
    pose proof (byte_val_range lo). pose proof (byte_val_range hi). lia.
Qed.

Lemma utf16_points_spec : forall us s,
  utf16_points us = Some s ->
  Forall (fun u => 0 <= u < 65536) us ->
  (length s <= length us)%nat /\ Forall is_scalar s.
Proof.
  intros us. remember (length us) as n eqn:Hn. revert us Hn.
  induction n as [n IH] using lt_wf_ind. intros us Hn s. subst n.
  destruct us as [| u rest]; cbn [utf16_points].
  - intros [= <-] _. split; [reflexivity | constructor].
  - unfold is_high_surrogate, is_low_surrogate.
    destruct (Z.leb_spec 0xD800 u) as [Hh1 | Hh1];
      destruct (Z.leb_spec u 0xDBFF) as [Hh2 | Hh2]; cbn [andb].
    + destruct rest as [| u2 rest']; [discriminate |].
      destruct (Z.leb_spec 0xDC00 u2) as [Hl1 | Hl1];
        destruct (Z.leb_spec u2 0xDFFF) as [Hl2 | Hl2]; cbn [andb]; try discriminate.
      destruct (utf16_points rest') as [s' |] eqn:Hrest; [| discriminate].
      intros [= <-] Hall.
      inversion Hall as [| ? ? _ Hall']; subst. inversion Hall' as [| ? ? _ Hall'']; subst.
      destruct (IH (length rest') ltac:(cbn [length]; lia) rest' eq_refl s' Hrest Hall'')
        as [Hlen Hsc].
      split; [cbn [length]; lia |]. constructor; [| exact Hsc].
      rewrite Z.shiftl_mul_pow2 by lia. unfold is_scalar. lia.
    + destruct (Z.leb_spec 0xDC00 u) as [Hl1 | Hl1];
        destruct (Z.leb_spec u 0xDFFF) as [Hl2 | Hl2]; cbn [andb]; try discriminate; try lia.
      destruct (utf16_points rest) as [s' |] eqn:Hrest; [| discriminate].
      intros [= <-] Hall. inversion Hall as [| ? ? Hu Hall']; subst.
      destruct (IH (length rest) ltac:(cbn [length]; lia) rest eq_refl s' Hrest Hall')
        as [Hlen Hsc].
      split; [cbn [length]; lia |]. constructor; [| exact Hsc]. unfold is_scalar. lia.
    + destruct (Z.leb_spec 0xDC00 u) as [Hl1 | Hl1];
        destruct (Z.leb_spec u 0xDFFF) as [Hl2 | Hl2]; cbn [andb]; try discriminate; try lia.
      destruct (utf16_points rest) as [s' |] eqn:Hrest; [| discriminate].
      intros [= <-] Hall. inversion Hall as [| ? ? Hu Hall']; subst.
      destruct (IH (length rest) ltac:(cbn [length]; lia) rest eq_refl s' Hrest Hall')
        as [Hlen Hsc].
      split; [cbn [length]; lia |]. constructor; [| exact Hsc]. unfold is_scalar. lia.
    + lia.
Qed.

Lemma decode_utf16le_spec bs s :
  decode_utf16le bs = Ok s ->
  (2 * length s <= length bs)%nat /\ Forall is_scalar s.
Proof.
  unfold decode_utf16le.
  destruct (utf16le_units bs) as [us |] eqn:Hu; [| discriminate].
  destruct (utf16_points us) as [s' |] eqn:Hp; [| discriminate].
  intros [= <-]. destruct (utf16le_units_spec _ _ Hu) as [Hlen Hall].
  destruct (utf16_points_spec _ _ Hp Hall) as [Hlen' Hsc].
  split; [lia | exact Hsc].
Qed.

Lemma trimmed_of_smaller s t (Q : Z -> Prop) :
  trimmed_of s t -> (length t <= length s)%nat /\ (Forall Q s -> Forall Q t).
Proof.
  intros (front & back & -> & _). split.
  - rewrite !length_app. lia.
  - intros Hall. apply Forall_app in Hall as [_ Hall].
    apply Forall_app in Hall as [Hall _]. exact Hall.
Qed.

Lemma slice_length_nat data off len : (length (slice data off len) <= Z.to_nat len)%nat.
Proof.
  unfold slice. rewrite length_take. lia.
Qed.

Lemma decode_ascii_ignore_spec bs :
  (length (decode_ascii_ignore bs) <= length bs)%nat /\
  Forall (fun c => 0 <= c < 128) (decode_ascii_ignore bs).
Proof.
  unfold decode_ascii_ignore. split.
  - rewrite length_map. apply List.filter_length_le.
  - apply Forall_forall. intros c Hc. apply list_elem_of_In in Hc.
    apply in_map_iff in Hc as (b & <- & Hb). apply filter_In in Hb as [_ Hb].
    unfold is_ascii in Hb. pose proof (byte_val_range b). lia.
Qed.

(** X4.  Where the other fields of an entry come from: [dwSize] and the
    flags are the words at bytes 0, 1544, 1548, 1556 and 1560; [dwAddr] is
    the 5 words from byte 1564 and [dwReserved] the 249 words from byte
    1584; [szFileVersion] is the 504 bytes at 1028 with every byte above
    127 dropped, then stripped of NULs at both ends. *)
Theorem X4_entry_layout (data : bytes) (h : Header.t) :
  Header.init data = Ok h ->
  Header.dwSize h = le_uint (slice data 0 4) /\
  Header.szFileVersion h = strip NUL (decode_ascii_ignore (slice data 1028 504)) /\
  Header.nFileFlag h = le_uint (slice data 1544 4) /\
  Header.nCheckFlag h = le_uint (slice data 1548 4) /\
  Header.dwCanOmitFlag h = le_uint (slice data 1556 4) /\
  Header.dwAddrNum h = le_uint (slice data 1560 4) /\
  Header.dwAddr h = words_at data 1564 5 /\
  Header.dwReserved h = words_at data 1584 249 /\
  length (Header.dwAddr h) = 5%nat /\
  length (Header.dwReserved h) = 249%nat.
Proof.
  intros Hinit.
  destruct (Header_init_all data h Hinit) as (H1 & H2 & H3 & H4 & H5 & H6 & H7 & H8).
  rewrite H7, H8, !words_at_length. repeat split; assumption.
Qed.

Lemma X4_entry_layout_witness :
  exists h,
    Header.init (entry_record 0 0 1 16) = Ok h /\
    Header.dwAddr h = words_at (entry_record 0 0 1 16) 1564 5 /\
    length (Header.dwReserved h) = 249%nat.
Proof.
  eexists. split; [vm_compute; reflexivity |].
  match goal with
  | |- Header.dwAddr ?h = _ /\ _ =>
      destruct (X4_entry_layout (entry_record 0 0 1 16) h)
        as (_ & _ & _ & _ & _ & _ & Ha & _ & _ & Hr); [vm_compute; reflexivity |];
      split; [exact Ha | exact Hr]
  end.
Defined.

(** X5.  The text of a decoded entry is bounded and clean: [szFileID] and
    [szFileName] have at most 256 characters, all of them Unicode scalar
    values (never a surrogate), and neither starts nor ends with a NUL;
    [szFileVersion] has at most 504 characters, all below 128. *)
Theorem X5_entry_text_is_bounded (data : bytes) (h : Header.t) :
  Header.init data = Ok h ->
  ((length (Header.szFileID h) <= 256)%nat /\ Forall is_scalar (Header.szFileID h) /\
   (forall r, Header.szFileID h <> 0 :: r) /\ (forall r, Header.szFileID h <> r ++ [0])) /\
  ((length (Header.szFileName h) <= 256)%nat /\ Forall is_scalar (Header.szFileName h) /\
   (forall r, Header.szFileName h <> 0 :: r) /\ (forall r, Header.szFileName h <> r ++ [0])) /\
  (length (Header.szFileVersion h) <= 504)%nat /\
  Forall (fun c => 0 <= c < 128) (Header.szFileVersion h).
Proof.
  intros Hinit.
  destruct (Header_init_Ok data h Hinit)
    as (_ & _ & _ & _ & _ & (s1 & E1 & ->) & (s2 & E2 & ->)).
  destruct (Header_init_all data h Hinit) as (_ & -> & _).
  assert (Hname : forall bs s, decode_utf16le bs = Ok s -> (length bs <= 512)%nat ->
            (length (strip NUL s) <= 256)%nat /\ Forall is_scalar (strip NUL s) /\
            (forall r, strip NUL s <> 0 :: r) /\ (forall r, strip NUL s <> r ++ [0])).
  { intros bs s Hs Hlen. destruct (decode_utf16le_spec bs s Hs) as [Hl Hsc].
    pose proof (strip_NUL_trimmed s) as Htrim.
    destruct (trimmed_of_smaller _ _ is_scalar Htrim) as [Hle Hkeep].
    destruct Htrim as (front & back & _ & _ & _ & Hhead & Hlast).
    repeat split; [lia | exact (Hkeep Hsc) | exact Hhead | exact Hlast]. }
  split; [apply (Hname _ _ E1); apply (slice_length_nat data 4 512) |].
  split; [apply (Hname _ _ E2); apply (slice_length_nat data 516 512) |].
  destruct (decode_ascii_ignore_spec (slice data 1028 504)) as [Hl Hall].
  pose proof (slice_length_nat data 1028 504) as Hs.
  destruct (trimmed_of_smaller _ _ (fun c => 0 <= c < 128)
              (strip_NUL_trimmed (decode_ascii_ignore (slice data 1028 504)))) as [Hle Hkeep].
  split; [lia | exact (Hkeep Hall)].
Qed.

Lemma X5_entry_text_is_bounded_witness :
  exists h,
    Header.init (named_record name_a 0 0 1 1076) = Ok h /\
    Header.szFileID h = ascii_str "a" /\
    (length (Header.szFileID h) <= 256)%nat /\ Forall is_scalar (Header.szFileID h).
Proof.
  eexists. split; [vm_compute; reflexivity |]. split; [reflexivity |].
  match goal with
  | |- (length (Header.szFileID ?h) <= _)%nat /\ _ =>
      destruct (X5_entry_text_is_bounded (named_record name_a 0 0 1 1076) h)
        as ((Hl & Hs & _) & _); [vm_compute; reflexivity |];
      split; [exact Hl | exact Hs]
  end.
Defined.

(** ** The 64-bit values and their halves *)

Lemma split_halves hi lo :
  0 <= hi < 2 ^ 32 -> 0 <= lo < 2 ^ 32 ->
  Z.shiftr (Z.lor (Z.shiftl hi 32) lo) 32 = hi /\
  Z.land (Z.lor (Z.shiftl hi 32) lo) (Z.ones 32) = lo.
Proof.
  intros Hhi Hlo. destruct (join_halves hi lo Hhi Hlo) as [-> _].
  rewrite Z.shiftr_div_pow2, Z.land_ones by lia. split.
  - rewrite Z.div_add_l by lia. rewrite Z.div_small by lia. lia.
  - rewrite Z.add_comm, Z.mod_add by lia. apply Z.mod_small. lia.
Qed.

Lemma Header_halves_u32 data h :
  Header.init data = Ok h ->
  0 <= Header.dwHiFileSize h < 2 ^ 32 /\ 0 <= Header.dwLoFileSize h < 2 ^ 32 /\
  0 <= Header.dwHiDataOffset h < 2 ^ 32 /\ 0 <= Header.dwLoDataOffset h < 2 ^ 32.
Proof.
  intros Hinit. destruct (Header_init_Ok data h Hinit) as (_ & -> & -> & -> & -> & _).
  repeat split; apply le_uint_u32.
Qed.

(** X6.  Nothing is lost in the join: from [nFileSize] and [dwDataOffset]
    of a decoded entry the stored halves come back as [value >> 32] and
    [value & 0xFFFFFFFF]; so two decoded entries with the same size (or
    offset) have the same halves. *)
Theorem X6_halves_recovered_from_values (data : bytes) (h : Header.t) :
  Header.init data = Ok h ->
  Z.shiftr (Header.nFileSize h) 32 = Header.dwHiFileSize h /\
  Z.land (Header.nFileSize h) (Z.ones 32) = Header.dwLoFileSize h /\
  Z.shiftr (Header.dwDataOffset h) 32 = Header.dwHiDataOffset h /\
  Z.land (Header.dwDataOffset h) (Z.ones 32) = Header.dwLoDataOffset h /\
  (forall data' h',
     Header.init data' = Ok h' ->
     (Header.nFileSize h = Header.nFileSize h' ->
      Header.dwHiFileSize h = Header.dwHiFileSize h' /\
      Header.dwLoFileSize h = Header.dwLoFileSize h') /\
     (Header.dwDataOffset h = Header.dwDataOffset h' ->
      Header.dwHiDataOffset h = Header.dwHiDataOffset h' /\
      Header.dwLoDataOffset h = Header.dwLoDataOffset h')).
Proof.
  intros Hinit. destruct (Header_halves_u32 data h Hinit) as (R1 & R2 & R3 & R4).
  unfold Header.nFileSize, Header.dwDataOffset.
  destruct (split_halves _ _ R1 R2) as [S1 S2].
  destruct (split_halves _ _ R3 R4) as [S3 S4].
  do 4 (split; [assumption |]).
  intros data' h' Hinit'. destruct (Header_halves_u32 data' h' Hinit') as (Q1 & Q2 & Q3 & Q4).
  split; intros Heq.
  - exact (join_halves_inj _ _ _ _ R1 R2 Q1 Q2 Heq).
  - exact (join_halves_inj _ _ _ _ R3 R4 Q3 Q4 Heq).
Qed.

Lemma X6_halves_recovered_from_values_witness :
  exists h,
    Header.init (entry_record 1 3 2 16) = Ok h /\
    Z.shiftr (Header.nFileSize h) 32 = 1 /\
    Z.land (Header.nFileSize h) (Z.ones 32) = 2.
Proof.
  eexists. split; [vm_compute; reflexivity |].
  match goal with
  | |- Z.shiftr (Header.nFileSize ?h) 32 = _ /\ _ =>
      destruct (X6_halves_recovered_from_values (entry_record 1 3 2 16) h)
        as (Hhi & Hlo & _); [vm_compute; reflexivity |];
      split; [exact Hhi | exact Hlo]
  end.
Defined.

(** X7.  Every unsigned 64-bit size and every unsigned 64-bit offset is
    the decoded value of some 2580-byte record: the decoder reaches the
    whole range, not only values below [2^32]. *)
Theorem X7_every_u64_is_decoded (size offset : Z) :
  0 <= size < 2 ^ 64 -> 0 <= offset < 2 ^ 64 ->
  exists data h,
    blen data = Header.SIZE /\ Header.init data = Ok h /\
    Header.nFileSize h = size /\ Header.dwDataOffset h = offset.
Proof.
  intros Hsize Hoffset.
  assert (Hparts : forall v, 0 <= v < 2 ^ 64 ->
            0 <= v / 2 ^ 32 < 2 ^ 32 /\ 0 <= v mod 2 ^ 32 < 2 ^ 32 /\
            v = v / 2 ^ 32 * 2 ^ 32 + v mod 2 ^ 32).
  { intros v Hv. split; [| split].
    - split; [apply Z.div_pos; lia |].
      apply Z.div_lt_upper_bound; [lia |]. change (2 ^ 32 * 2 ^ 32) with (2 ^ 64). lia.
    - apply Z.mod_pos_bound. lia.
    - pose proof (Z.div_mod v (2 ^ 32) ltac:(lia)). lia. }
  destruct (Hparts size Hsize) as (Hs1 & Hs2 & Hs).
  destruct (Hparts offset Hoffset) as (Ho1 & Ho2 & Ho).
  destruct (entry_record_decodes (size / 2 ^ 32) (offset / 2 ^ 32)
              (size mod 2 ^ 32) (offset mod 2 ^ 32) Hs1 Ho1 Hs2 Ho2)
    as (h & Hh & F1 & F2 & F3 & F4).
  exists (entry_record (size / 2 ^ 32) (offset / 2 ^ 32) (size mod 2 ^ 32) (offset mod 2 ^ 32)), h.
  destruct (Header_init_Ok _ _ Hh) as (Hlen & _).
  split; [exact Hlen |]. split; [exact Hh |].
  unfold Header.nFileSize, Header.dwDataOffset. rewrite F1, F2, F3, F4.
  destruct (join_halves _ _ Hs1 Hs2) as [-> _].
  destruct (join_halves _ _ Ho1 Ho2) as [-> _]. lia.
Qed.

Lemma X7_every_u64_is_decoded_witness :
  exists data h,
    blen data = Header.SIZE /\ Header.init data = Ok h /\
    Header.nFileSize h = 2 ^ 64 - 1 /\ Header.dwDataOffset h = 2 ^ 40.
Proof.
  apply (X7_every_u64_is_decoded (2 ^ 64 - 1) (2 ^ 40)); lia.
Defined.

(** * Further properties of the runs *)

(** ** What a run appends to the log, and whether it writes *)

Section Runs.

Context {P : Platform}.

Lemma emits_ret {A} Q (a : A) : emits Q (ret a).
Proof. intros w. exists []. rewrite app_nil_r. split; [reflexivity | constructor]. Qed.

Lemma emits_raise {A} Q e : emits Q (raise (A := A) e).
Proof. intros w. exists []. rewrite app_nil_r. split; [reflexivity | constructor]. Qed.

Lemma emits_lift {A} Q (r : outcome A) : emits Q (lift r).
Proof. intros w. exists []. rewrite app_nil_r. split; [reflexivity | constructor]. Qed.

Lemma emits_emit Q e : Q e -> emits Q (emit e).
Proof.
  intros He w. exists [e]. split; [reflexivity | constructor; [exact He | constructor]].
Qed.

Lemma emits_bind {A B} Q (c : M A) (k : A -> M B) :
  emits Q c -> (forall a, emits Q (k a)) -> emits Q (bind c k).
Proof.
  intros Hc Hk w. unfold bind. destruct (Hc w) as (t1 & Hlog1 & Hall1).
  destruct (c w) as [[a | e] w1]; cbn [snd] in *.
  - destruct (Hk a w1) as (t2 & Hlog2 & Hall2). exists (t1 ++ t2).
    rewrite Hlog2, Hlog1, app_assoc. split; [reflexivity | apply Forall_app; split; assumption].
  - exists t1. split; assumption.
Qed.

Lemma emits_finally {A} Q (body : M A) (cleanup : M unit) :
  emits Q body -> emits Q cleanup -> emits Q (finally body cleanup).
Proof.
  intros Hb Hc w. unfold finally. destruct (Hb w) as (t1 & Hlog1 & Hall1).
  destruct (body w) as [r w1]; cbn [snd] in *.
  destruct (Hc w1) as (t2 & Hlog2 & Hall2).
  destruct (cleanup w1) as [[[] | e] w2]; cbn [snd] in *;
    (exists (t1 ++ t2); rewrite Hlog2, Hlog1, app_assoc;
     split; [reflexivity | apply Forall_app; split; assumption]).
Qed.

Lemma emits_when Q b (c : M unit) : emits Q c -> emits Q (when b c).
Proof. intros Hc. destruct b; [exact Hc | apply emits_ret]. Qed.

Lemma emits_seek Q off : Q (EvSeek off) -> emits Q (seek off).
Proof.
  intros He. unfold seek. destruct (seek_refusal off); [apply emits_raise |].
  intros w. exists [EvSeek off]. split; [reflexivity | constructor; [exact He | constructor]].
Qed.

Lemma emits_read Q file size :
  (forall pos got, Q (EvRead pos size got)) -> emits Q (read file size).
Proof.
  intros He. unfold read. destruct (read_refusal size); [apply emits_raise |].
  intros w. eexists [_]. split; [reflexivity | constructor; [apply He | constructor]].
Qed.

Lemma keeps_ret {A} (a : A) : keeps_files (ret a).
Proof. intros w. reflexivity. Qed.

Lemma keeps_raise {A} e : keeps_files (raise (A := A) e).
Proof. intros w. reflexivity. Qed.

Lemma keeps_lift {A} (r : outcome A) : keeps_files (lift r).
Proof. intros w. reflexivity. Qed.

Lemma keeps_emit e : keeps_files (emit e).
Proof. intros w. reflexivity. Qed.

Lemma keeps_bind {A B} (c : M A) (k : A -> M B) :
  keeps_files c -> (forall a, keeps_files (k a)) -> keeps_files (bind c k).
Proof.
  intros Hc Hk w. unfold bind. specialize (Hc w).
  destruct (c w) as [[a | e] w1]; cbn [snd] in *; [| exact Hc].
  rewrite (Hk a w1). exact Hc.
Qed.

Lemma keeps_finally {A} (body : M A) (cleanup : M unit) :
  keeps_files body -> keeps_files cleanup -> keeps_files (finally body cleanup).
Proof.
  intros Hb Hc w. unfold finally. specialize (Hb w).
  destruct (body w) as [r w1]; cbn [snd] in *. specialize (Hc w1).
  destruct (cleanup w1) as [[[] | e] w2]; cbn [snd] in *; congruence.
Qed.

Lemma keeps_when b (c : M unit) : keeps_files c -> keeps_files (when b c).
Proof. intros Hc. destruct b; [exact Hc | apply keeps_ret]. Qed.

Lemma keeps_seek off : keeps_files (seek off).
Proof. unfold seek. destruct (seek_refusal off); [apply keeps_raise |]. intros w. reflexivity. Qed.

Lemma keeps_read file size : keeps_files (read file size).
Proof.
  unfold read. destruct (read_refusal size); [apply keeps_raise |]. intros w. reflexivity.
Qed.

(** The reading half of the program: for any [Q] that holds of seeks,
    reads and prints. *)
Section Input.

Variable Q : event -> Prop.
Hypothesis HQ : forall e, is_input_event e -> Q e.

Lemma emits_print m : emits Q (print m).
Proof. apply emits_emit, HQ. exact I. Qed.

Lemma emits_read_pac_header file : emits Q (read_pac_header file).
Proof.
  unfold read_pac_header.
  apply emits_bind; [apply emits_seek, HQ; exact I | intros _].
  apply emits_bind; [apply emits_read; intros; apply HQ; exact I | intros data].
  destruct (negb _); [apply emits_ret |].
  apply emits_bind; [apply emits_lift | intros h; apply emits_ret].
Qed.

Lemma emits_read_header file offset : emits Q (read_header file offset).
Proof.
  unfold read_header.
  apply emits_bind; [apply emits_seek, HQ; exact I | intros _].
  apply emits_bind; [apply emits_read; intros; apply HQ; exact I | intros data].
  destruct (negb _); [apply emits_ret |].
  apply emits_bind; [apply emits_lift | intros h; apply emits_ret].
Qed.

Lemma emits_read_headers file n : forall offset headers,
  emits Q (read_headers file n offset headers).
Proof.
  induction n as [| n IH]; intros offset headers; cbn [read_headers]; [apply emits_ret |].
  apply emits_bind; [apply emits_read_header | intros [h |]].
  - apply IH.
  - apply emits_bind; [apply emits_print | intros _; apply emits_ret].
Qed.

Lemma emits_print_headers headers verbose : forall idx,
  emits Q (print_headers idx headers verbose).
Proof.
  induction headers as [| h rest IH]; intros idx; cbn [print_headers]; [apply emits_ret |].
  apply emits_bind; [apply emits_print | intros _; apply IH].
Qed.

End Input.

Lemma keeps_read_pac_header file : keeps_files (read_pac_header file).
Proof.
  unfold read_pac_header.
  apply keeps_bind; [apply keeps_seek | intros _].
  apply keeps_bind; [apply keeps_read | intros data].
  destruct (negb _); [apply keeps_ret |].
  apply keeps_bind; [apply keeps_lift | intros h; apply keeps_ret].
Qed.

Lemma keeps_read_header file offset : keeps_files (read_header file offset).
Proof.
  unfold read_header.
  apply keeps_bind; [apply keeps_seek | intros _].
  apply keeps_bind; [apply keeps_read | intros data].
  destruct (negb _); [apply keeps_ret |].
  apply keeps_bind; [apply keeps_lift | intros h; apply keeps_ret].
Qed.

Lemma keeps_read_headers file n : forall offset headers,
  keeps_files (read_headers file n offset headers).
Proof.
  induction n as [| n IH]; intros offset headers; cbn [read_headers]; [apply keeps_ret |].
  apply keeps_bind; [apply keeps_read_header | intros [h |]].
  - apply IH.
  - apply keeps_bind; [apply keeps_emit | intros _; apply keeps_ret].
Qed.

Lemma keeps_print_headers headers verbose : forall idx,
  keeps_files (print_headers idx headers verbose).
Proof.
  induction headers as [| h rest IH]; intros idx; cbn [print_headers]; [apply keeps_ret |].
  apply keeps_bind; [apply keeps_emit | intros _; apply IH].
Qed.

End Runs.

(** ** Reading entry records *)

Section Records.

Context {P : Platform}.

(** X8.  [read_header] at an offset the platform accepts: it returns
    [None] exactly when fewer than 2580 bytes are left from the offset on;
    when it returns an entry, that entry is the decoding of the 2580 bytes
    at the offset and the cursor stands right after them; the only
    exception it can raise is [UnicodeDecodeError] (never [struct.error]);
    and it writes no file. *)
Theorem X8_read_header_outcome (file : bytes) (offset : Z) (w : world) :
  0 <= offset -> seek_refusal offset = None ->
  ((exists w', read_header file offset w = (Ok None, w'))
   <-> blen file < offset + Header.SIZE) /\
  (forall h w',
     read_header file offset w = (Ok (Some h), w') ->
     Header.init (slice file offset Header.SIZE) = Ok h /\
     w_pos w' = offset + Header.SIZE) /\
  (forall e w', read_header file offset w = (Raise e, w') -> e = UnicodeDecodeError) /\
  w_files (snd (read_header file offset w)) = w_files w.
Proof.
  intros Hoff Hseek.
  assert (Hfull : blen (slice file offset Header.SIZE) = Header.SIZE
                  <-> offset + Header.SIZE <= blen file).
  { rewrite slice_full_iff by (rewrite ?Header_SIZE_eq; lia). rewrite Header_SIZE_eq. lia. }
  split; [| split; [| split]]; try apply keeps_read_header;
    rewrite read_header_eq, Hseek; cbv zeta;
    destruct (Z.eqb_spec (blen (slice file offset Header.SIZE)) Header.SIZE) as [Heq | Hne].
  - split; [| rewrite Hfull in Heq; lia].
    intros [w' Hrun]. destruct (Header.init (slice file offset Header.SIZE)); discriminate.
  - split; [intros _; rewrite Hfull in Hne; lia | intros _; eexists; reflexivity].
  - intros h w'. destruct (Header.init (slice file offset Header.SIZE)) as [h0 | e];
      [| discriminate].
    intros [= -> <-]. cbn [w_pos]. rewrite Heq. split; reflexivity.
  - intros h w'. discriminate.
  - intros e w'. destruct (Header_init_total _ Heq) as [[h Hh] | Hr]; rewrite ?Hh, ?Hr.
    + discriminate.
    + intros [= <- _]. reflexivity.
  - intros e w'. discriminate.
Qed.

Lemma walk_exact file n offset headers trace hs :
  walk file n offset headers trace (Ok hs) ->
  0 <= offset <= blen file ->
  exists more, hs = headers ++ more /\
    Z.of_nat (length more) = Z.min (Z.of_nat n) ((blen file - offset) / Header.SIZE) /\
    forall (i : nat) h, more !! i = Some h ->
      Header.init (slice file (offset + Z.of_nat i * Header.SIZE) Header.SIZE) = Ok h.
Proof.
  intros Hwalk. remember (Ok hs) as result eqn:Hres. revert hs Hres.
  induction Hwalk as [offset headers | n offset headers e Hs | n offset headers Hs Hshort
                  | n offset headers e Hs Hfull Hinit
                  | n offset headers h trace result Hs Hfull Hinit Hwalk IH];
    intros hs Hres Hoff; try discriminate.
  - injection Hres as <-. exists []. rewrite app_nil_r. split; [reflexivity |].
    split; [| intros i h Hi; discriminate]. cbn [length].
    pose proof (Z.div_pos (blen file - offset) Header.SIZE).
    rewrite Header_SIZE_eq in *. lia.
  - injection Hres as <-. exists []. rewrite app_nil_r. split; [reflexivity |].
    split; [| intros i h Hi; discriminate]. cbn [length].
    rewrite slice_full_iff in Hshort by (rewrite ?Header_SIZE_eq; lia).
    rewrite Header_SIZE_eq in *.
    rewrite (Z.div_small (blen file - offset) 2580) by lia. lia.
  - apply slice_full_iff in Hfull; [| lia | rewrite Header_SIZE_eq; lia].
    rewrite Header_SIZE_eq in Hfull.
    destruct (IH hs Hres ltac:(rewrite Header_SIZE_eq; lia)) as (more & -> & Hlen & Hdec).
    exists (h :: more). rewrite <- app_assoc. split; [reflexivity |]. split.
    + cbn [length]. rewrite Header_SIZE_eq in *.
      replace (blen file - offset) with (blen file - (offset + 2580) + 1 * 2580) by lia.
      rewrite Z.div_add by lia. lia.
    + intros [| i] h' Hi.
      * injection Hi as <-. rewrite Z.mul_0_l, Z.add_0_r. exact Hinit.
      * cbn in Hi. apply Hdec in Hi.
        replace (offset + Z.of_nat (S i) * Header.SIZE)
          with (offset + Header.SIZE + Z.of_nat i * Header.SIZE) by lia.
        exact Hi.
Qed.

(** X9.  A walk that returns keeps exactly
    [min(nFileCount, floor((file_len - 2124) / 2580))] entries, and they
    are the table in order: entry [i] is the decoding of the 2580 bytes at
    [2124 + i * 2580]. *)
Theorem X9_walk_returns_the_full_records_in_order (file : bytes) (w w1 w2 : world)
    (ph : PacHeader.t) (hs : list Header.t) :
  read_pac_header file w = (Ok (Some ph), w1) ->
  main_walk file ph w1 = (Ok hs, w2) ->
  Z.of_nat (length hs)
    = Z.min (PacHeader.nFileCount ph) ((blen file - main_offset) / Header.SIZE) /\
  forall (i : nat) h, hs !! i = Some h -> Header.init (record_at file i) = Ok h.
Proof.
  intros Hpac Hwalk.
  destruct (read_pac_header_Some _ _ _ _ Hpac) as (Hlen & Hcount & _).
  unfold main_walk in Hwalk.
  destruct (read_headers_walk file (Z.to_nat (PacHeader.nFileCount ph)) main_offset [] w1)
    as (trace & result & pos & Hrun & Hspec).
  rewrite Hrun in Hwalk. injection Hwalk as -> _.
  assert (Hoff : 0 <= main_offset <= blen file).
  { unfold main_offset. rewrite PacHeader_SIZE_eq in Hlen. lia. }
  destruct (walk_exact _ _ _ _ _ _ Hspec Hoff) as (more & -> & Hexact & Hdec).
  cbn [app]. rewrite Z2Nat.id in Hexact by lia. split; [exact Hexact | exact Hdec].
Qed.

(** X10.  The walk raises only what a seek raised or
    [UnicodeDecodeError]; it never writes a file; and whatever it does it
    only seeks, reads and prints. *)
Theorem X10_walk_failures (file : bytes) (ph : PacHeader.t) (w : world) :
  (forall e, fst (main_walk file ph w) = Raise e ->
     e = UnicodeDecodeError \/ exists off, seek_refusal off = Some e) /\
  w_files (snd (main_walk file ph w)) = w_files w /\
  exists trace,
    w_log (snd (main_walk file ph w)) = w_log w ++ trace /\
    Forall is_input_event trace.
Proof.
  split; [| split].
  - unfold main_walk.
    destruct (read_headers_walk file (Z.to_nat (PacHeader.nFileCount ph)) main_offset [] w)
      as (trace & result & pos & Hrun & Hspec).
    rewrite Hrun. cbn [fst]. clear Hrun.
    induction Hspec as [offset headers | n offset headers e Hs | n offset headers Hs Hshort
                  | n offset headers e Hs Hfull Hinit
                  | n offset headers h trace result Hs Hfull Hinit Hwalk IH];
      intros e' Hres; try discriminate.
    + injection Hres as <-. right. exists offset. exact Hs.
    + injection Hres as <-. left.
      destruct (Header_init_total _ Hfull) as [[h Hh] | Hr]; congruence.
    + exact (IH e' Hres).
  - apply keeps_read_headers.
  - apply (emits_read_headers is_input_event (fun e He => He)).
Qed.

Lemma read_headers_abort file (k : nat) : forall n offset headers w e,
  (k < n)%nat ->
  (forall i : nat, (i <= k)%nat ->
     seek_refusal (offset + Z.of_nat i * Header.SIZE) = None) ->
  0 <= offset -> offset + (Z.of_nat k + 1) * Header.SIZE <= blen file ->
  (forall i : nat, (i < k)%nat ->
     exists h, Header.init (slice file (offset + Z.of_nat i * Header.SIZE) Header.SIZE) = Ok h) ->
  Header.init (slice file (offset + Z.of_nat k * Header.SIZE) Header.SIZE) = Raise e ->
  fst (read_headers file n offset headers w) = Raise e.
Proof.
  induction k as [| k IH]; intros n offset headers w e Hk Hseek Hoff Hfit Hgood Hbad;
    (destruct n as [| n]; [lia |]); cbn [read_headers]; unfold bind at 1;
    rewrite read_header_eq;
    pose proof (Hseek 0%nat ltac:(lia)) as Hs0;
    rewrite Z.mul_0_l, Z.add_0_r in Hs0; rewrite Hs0; cbv zeta;
    (destruct (Z.eqb_spec (blen (slice file offset Header.SIZE)) Header.SIZE) as [_ | Hne];
     [| exfalso; apply Hne; apply slice_full_iff;
        rewrite ?Header_SIZE_eq in *; lia]).
  - rewrite Z.mul_0_l, Z.add_0_r in Hbad. rewrite Hbad. reflexivity.
  - destruct (Hgood 0%nat ltac:(lia)) as [h Hh].
    rewrite Z.mul_0_l, Z.add_0_r in Hh. rewrite Hh.
    apply IH.
    + lia.
    + intros i Hi. specialize (Hseek (S i) ltac:(lia)).
      replace (offset + Header.SIZE + Z.of_nat i * Header.SIZE)
        with (offset + Z.of_nat (S i) * Header.SIZE) by lia. exact Hseek.
    + rewrite Header_SIZE_eq. lia.
    + rewrite Header_SIZE_eq in *. lia.
    + intros i Hi. specialize (Hgood (S i) ltac:(lia)).
      replace (offset + Header.SIZE + Z.of_nat i * Header.SIZE)
        with (offset + Z.of_nat (S i) * Header.SIZE) by lia. exact Hgood.
    + replace (offset + Header.SIZE + Z.of_nat k * Header.SIZE)
        with (offset + Z.of_nat (S k) * Header.SIZE) by lia. exact Hbad.
Qed.

(** X11.  One undecodable record loses the whole listing: when record [k]
    is among the announced ones, lies in the file and fails to decode,
    while the records before it decode and the platform accepts the
    seeks, the walk ends with that exception and returns no entry at
    all. *)
Theorem X11_undecodable_record_aborts_walk (file : bytes) (ph : PacHeader.t) (w : world)
    (k : nat) (e : exn) :
  Z.of_nat k < PacHeader.nFileCount ph ->
  (forall i : nat, (i <= k)%nat ->
     seek_refusal (main_offset + Z.of_nat i * Header.SIZE) = None) ->
  main_offset + (Z.of_nat k + 1) * Header.SIZE <= blen file ->
  (forall i : nat, (i < k)%nat -> exists h, Header.init (record_at file i) = Ok h) ->
  Header.init (record_at file k) = Raise e ->
  fst (main_walk file ph w) = Raise e.
Proof.
  intros Hk Hseek Hfit Hgood Hbad. unfold main_walk.
  apply (read_headers_abort file k); try assumption; [lia | unfold main_offset; lia].
Qed.

End Records.

Lemma X8_read_header_outcome_witness :
  0 <= 7284 /\ seek_refusal 7284 = None /\
  blen truncated_file < 7284 + Header.SIZE /\
  exists w', read_header truncated_file 7284 w0 = (Ok None, w').
Proof.
  destruct (X8_read_header_outcome (P := posix) truncated_file 7284 w0) as (Hnone & _);
    [lia | reflexivity |].
  split; [lia |]. split; [reflexivity |]. split; [reflexivity |].
  apply Hnone. reflexivity.
Defined.

Lemma X9_walk_returns_the_full_records_in_order_witness :
  exists ph w1 hs w2,
    read_pac_header truncated_file w0 = (Ok (Some ph), w1) /\
    main_walk truncated_file ph w1 = (Ok hs, w2) /\
    PacHeader.nFileCount ph = 3 /\
    (blen truncated_file - main_offset) / Header.SIZE = 2 /\
    Z.of_nat (length hs)
      = Z.min (PacHeader.nFileCount ph) ((blen truncated_file - main_offset) / Header.SIZE).
Proof.
  eexists _, _, _, _.
  split; [vm_compute; reflexivity |].
  match goal with
  | |- main_walk ?f ?ph ?w1 = (Ok ?hs, ?w2) /\ _ =>
      assert (Hwalk : main_walk f ph w1 = (Ok hs, w2)) by (vm_compute; reflexivity);
      split; [exact Hwalk |]; split; [reflexivity |]; split; [reflexivity |];
      exact (proj1 (X9_walk_returns_the_full_records_in_order (P := posix) f w0 w1 w2 ph hs
                      ltac:(vm_compute; reflexivity) Hwalk))
  end.
Defined.

(** The second record of [damaged_file] has a lone surrogate in its name. *)
Lemma X11_undecodable_record_aborts_walk_witness :
  exists ph w1,
    read_pac_header damaged_file w0 = (Ok (Some ph), w1) /\
    PacHeader.nFileCount ph = 2 /\
    Header.init (record_at damaged_file 1) = Raise UnicodeDecodeError /\
    fst (main_walk damaged_file ph w1) = Raise UnicodeDecodeError.
Proof.
  eexists _, _. split; [vm_compute; reflexivity |]. split; [reflexivity |].
  split; [vm_compute; reflexivity |].
  match goal with
  | |- fst (main_walk ?f ?ph ?w1) = _ =>
      apply (X11_undecodable_record_aborts_walk (P := posix) f ph w1 1%nat)
  end.
  - reflexivity.
  - intros i Hi. destruct i as [| [| i]]; [reflexivity | reflexivity | lia].
  - vm_compute. discriminate.
  - intros i Hi. destruct i as [| i]; [| lia]. eexists. vm_compute. reflexivity.
  - vm_compute. reflexivity.
Defined.

(** ** Writing partitions *)

Section Writes.

Context {P : Platform}.

(** X12.  One call of [extract_data] touches one file at most, the one
    its destination [os.path.join(output_dir, filename)] names: every
    other file is as before.  It raises only what the platform raised;
    when that was at the seek, the read, the directory or the opening of
    the destination, no file has changed; when it was at the write, the
    destination holds the part that was written.  When the call returns,
    the destination holds exactly the bytes read, whatever it held before.
    No other destination is opened. *)
Theorem X12_extract_data_touches_one_path (file : bytes) (offset size : Z)
    (output_dir filename : pystr) (w : world) :
  let data := slice file offset size in
  let path := os_path_join output_dir filename in
  let r := extract_data file offset size output_dir filename w in
  (forall key, key <> resolve path -> w_files (snd r) !! key = w_files w !! key) /\
  (forall e, fst r = Raise e ->
     ((seek_refusal offset = Some e \/ read_refusal size = Some e \/
       makedirs_refusal output_dir = Some e \/ open_refusal path = Some e) /\
      w_files (snd r) = w_files w) \/
     (exists n, write_failure path data = Some (e, n) /\
                w_files (snd r) !! resolve path = Some (take n data))) /\
  (fst r = Ok tt -> w_files (snd r) !! resolve path = Some data) /\
  exists trace,
    w_log (snd r) = w_log w ++ trace /\
    (opens_of trace = [] \/ opens_of trace = [path]).
Proof.
  cbv zeta.
  destruct (extract_data_effect file offset size output_dir filename w)
    as (Hframe & Hraise & Hok & trace & Hlog & _ & Hopens & _).
  split; [exact Hframe |]. split; [exact Hraise |]. split; [exact Hok |].
  exists trace. split; assumption.
Qed.

(** X13.  An entry of size 0, or one whose offset is at or past the end of
    the file, is extracted as an empty file, without an exception, when
    the platform accepts the seek, the read, the directory and the
    destination. *)
Theorem X13_nothing_to_read_gives_an_empty_file (file : bytes) (offset size : Z)
    (output_dir filename : pystr) (w : world) :
  0 <= offset -> 0 <= size ->
  size = 0 \/ blen file <= offset ->
  seek_refusal offset = None ->
  read_refusal size = None ->
  makedirs_refusal output_dir = None ->
  open_refusal (os_path_join output_dir filename) = None ->
  fst (extract_data file offset size output_dir filename w) = Ok tt /\
  w_files (snd (extract_data file offset size output_dir filename w))
    !! resolve (os_path_join output_dir filename) = Some [].
Proof.
  intros Hoff Hsize Hnone Hseek Hread Hdir Hopen.
  assert (Hempty : slice file offset size = []).
  { apply length_zero_iff_nil.
    pose proof (slice_blen file offset size Hoff Hsize) as Hl. unfold blen in Hl.
    unfold blen in Hnone. lia. }
  rewrite extract_data_eq, Hseek, Hread. cbv zeta.
  rewrite Hdir, Hopen, Hempty, write_nothing.
  cbn [fst snd w_files]. split; [reflexivity | apply lookup_insert_eq].
Qed.

Lemma export_loop_app file output_dir pre : forall post w,
  export_loop file (pre ++ post) output_dir w =
  match export_loop file pre output_dir w with
  | (Ok _, w1) => export_loop file post output_dir w1
  | (Raise e, w1) => (Raise e, w1)
  end.
Proof.
  induction pre as [| h pre IH]; intros post w; [reflexivity |].
  cbn [app]. rewrite !export_loop_cons.
  destruct (extract_data file (Header.dwDataOffset h) (Header.nFileSize h) output_dir
              (export_identifier h) w) as [[[] | e] w1]; [apply IH | reflexivity].
Qed.

(** X14.  Export-all stops at the first extraction that raises: when
    the entries before it were exported, none of them to the input file,
    the exception comes out of the loop and the entries after it are not
    attempted; no file but the one the failing entry's destination names
    differs from what the entries before it left, and the destinations
    opened are theirs, followed or not by the failing entry's. *)
Theorem X14_export_stops_at_first_failure (file : bytes) (pre post : list Header.t)
    (h : Header.t) (output_dir : pystr) (w w1 w2 : world) (e : exn) :
  Forall (fun h' => names_input (export_path output_dir h') = false) pre ->
  export_loop file pre output_dir w = (Ok tt, w1) ->
  extract_data file (Header.dwDataOffset h) (Header.nFileSize h) output_dir
    (export_identifier h) w1 = (Raise e, w2) ->
  export_loop file (pre ++ h :: post) output_dir w = (Raise e, w2) /\
  (forall key, key <> resolve (export_path output_dir h) ->
     w_files w2 !! key = w_files w1 !! key) /\
  exists trace,
    w_log w2 = w_log w ++ trace /\
    (opens_of trace = map (export_path output_dir) pre \/
     opens_of trace = map (export_path output_dir) (pre ++ [h])).
Proof.
  intros _ Hpre Hfail.
  destruct (extract_data_effect file (Header.dwDataOffset h) (Header.nFileSize h)
              output_dir (export_identifier h) w1)
    as (Hframe & _ & _ & t2 & Hlog2 & _ & Hopens2 & _).
  rewrite Hfail in Hframe, Hlog2. cbn [fst snd] in *.
  destruct (export_loop_Ok _ _ _ _ _ Hpre) as (_ & t1 & Hlog1 & Hopens1).
  split; [| split].
  - rewrite export_loop_app, Hpre, export_loop_cons, Hfail. reflexivity.
  - exact Hframe.
  - exists (t1 ++ t2). split; [rewrite Hlog2, Hlog1, app_assoc; reflexivity |].
    unfold opens_of in *. rewrite omap_app, Hopens1, map_app.
    destruct Hopens2 as [-> | ->]; [left; apply app_nil_r | right; reflexivity].
Qed.

End Writes.

Lemma X13_nothing_to_read_gives_an_empty_file_witness :
  0 <= 5 /\ blen three_bytes <= 5 /\
  fst (extract_data three_bytes 5 10 (ascii_str "out") (ascii_str "a") w0) = Ok tt /\
  w_files (snd (extract_data three_bytes 5 10 (ascii_str "out") (ascii_str "a") w0))
    !! resolve (ascii_str "out/a") = Some [].
Proof.
  split; [lia |]. split; [vm_compute; discriminate |].
  apply (X13_nothing_to_read_gives_an_empty_file (P := posix) three_bytes 5 10
           (ascii_str "out") (ascii_str "a") w0);
    [lia | lia | right; vm_compute; discriminate | reflexivity ..].
Defined.

(** On [mixed_file] the first entry is written, the blank one raises, and
    the third, named like the first, is never reached: [out/a] keeps the
    first payload. *)
Lemma X14_export_stops_at_first_failure_witness :
  exists ph w1 h1 h2 h3 w2 w3 w4,
    read_pac_header mixed_file w0 = (Ok (Some ph), w1) /\
    main_walk mixed_file ph w1 = (Ok [h1; h2; h3], w2) /\
    export_loop mixed_file [h1] (ascii_str "out") w2 = (Ok tt, w3) /\
    extract_data mixed_file (Header.dwDataOffset h2) (Header.nFileSize h2) (ascii_str "out")
      (export_identifier h2) w3 = (Raise OSError, w4) /\
    Forall (fun h => names_input (export_path (ascii_str "out") h) = false) [h1] /\
    export_loop mixed_file ([h1] ++ h2 :: [h3]) (ascii_str "out") w2
    = (Raise OSError, w4) /\
    w_files w4 = {[ resolve (ascii_str "out/a") := [Byte.x03] ]}.
Proof.
  eexists _, _, _, _, _, _, _, _.
  split; [vm_compute; reflexivity |]. split; [vm_compute; reflexivity |].
  match goal with
  | |- export_loop ?f [?h1] ?o ?w2 = (Ok tt, ?w3) /\
       extract_data _ ?off ?sz _ ?id _ = (Raise ?e, ?w4) /\ _ =>
      assert (Hpre : export_loop f [h1] o w2 = (Ok tt, w3)) by (vm_compute; reflexivity);
      assert (Hfail : extract_data f off sz o id w3 = (Raise e, w4))
        by (vm_compute; reflexivity);
      assert (Hin : Forall (fun h => names_input (export_path o h) = false) [h1])
        by (repeat constructor);
      split; [exact Hpre |]; split; [exact Hfail |]; split; [exact Hin |]
  end.
  match goal with
  | |- export_loop ?f ([?h1] ++ ?h2 :: [?h3]) ?o ?w2 = (Raise ?e, ?w4) /\ _ =>
      split;
      [exact (proj1 (X14_export_stops_at_first_failure (P := posix) f [h1] [h3] h2 o
                       w2 _ w4 e Hin Hpre Hfail))
      | vm_compute; reflexivity]
  end.
Defined.

(** ** Whole runs of [main] *)

Section Main.

Context {P : Platform}.

Lemma bind_Ok {A B} (c : M A) (k : A -> M B) w b w' :
  bind c k w = (Ok b, w') -> exists a w1, c w = (Ok a, w1) /\ k a w1 = (Ok b, w').
Proof.
  unfold bind. destruct (c w) as [[a | e] w1]; [| discriminate].
  intros Hk. exists a, w1. split; [reflexivity | exact Hk].
Qed.

Lemma emits_weaken {A} (Q Q' : event -> Prop) (c : M A) :
  (forall e, Q e -> Q' e) -> emits Q c -> emits Q' c.
Proof.
  intros Himp Hc w. destruct (Hc w) as (trace & Hlog & Hall).
  exists trace. split; [exact Hlog | exact (Forall_impl _ _ _ Hall Himp)].
Qed.

Lemma input_event_not_close e : is_input_event e -> not_close_input e.
Proof. destruct e; cbn; intros H; try contradiction; discriminate. Qed.

Lemma input_event_quiet e : is_input_event e -> is_quiet e.
Proof. destruct e; cbn; intros H; try contradiction; exact I. Qed.

Lemma emits_extract_data file offset size output_dir filename :
  emits not_close_input (extract_data file offset size output_dir filename).
Proof.
  intros w. destruct (extract_data_effect file offset size output_dir filename w)
    as (_ & _ & _ & trace & Hlog & Hall & _ & _).
  exists trace. split; assumption.
Qed.

Lemma extract_loop_effect file headers wanted output_dir w :
  let path := os_path_join output_dir wanted in
  let r := extract_loop file headers wanted output_dir w in
  (forall key, key <> resolve path -> w_files (snd r) !! key = w_files w !! key) /\
  exists trace,
    w_log (snd r) = w_log w ++ trace /\ Forall not_close_input trace /\
    (opens_of trace = [] \/ opens_of trace = [path]).
Proof.
  cbv zeta. induction headers as [| h rest IH]; cbn [extract_loop].
  - split; [reflexivity |]. eexists [_]. split; [reflexivity |].
    split; [repeat constructor; discriminate | left; reflexivity].
  - destruct (str_eqb (Header.szFileID h) wanted || str_eqb (Header.szFileName h) wanted)
      eqn:Hmatch; [| exact IH].
    assert (Hid : (if str_eqb (Header.szFileID h) wanted then Header.szFileID h
                   else Header.szFileName h) = wanted).
    { destruct (str_eqb (Header.szFileID h) wanted) eqn:Hfid.
      - apply str_eqb_eq. exact Hfid.
      - cbn [orb] in Hmatch. apply str_eqb_eq. exact Hmatch. }
    rewrite Hid. unfold bind, print, emit.
    destruct (extract_data_effect file (Header.dwDataOffset h) (Header.nFileSize h)
                output_dir wanted w) as (Hframe & _ & _ & trace & Hlog & Hall & Hopens & _).
    destruct (extract_data file (Header.dwDataOffset h) (Header.nFileSize h)
                output_dir wanted w) as [[[] | e] w1]; cbn [fst snd w_files w_log] in *.
    + split; [exact Hframe |]. exists (trace ++ [EvPrint (MsgExtracted wanted output_dir)]).
      rewrite Hlog, app_assoc. split; [reflexivity |]. split.
      * apply Forall_app. split; [exact Hall | repeat constructor; discriminate].
      * unfold opens_of in *. rewrite omap_app. cbn [omap open_of]. rewrite app_nil_r.
        exact Hopens.
    + split; [exact Hframe |]. exists trace. repeat split; assumption.
Qed.

Lemma emits_export_loop file output_dir headers :
  emits not_close_input (export_loop file headers output_dir).
Proof.
  induction headers as [| h rest IH]; cbn [export_loop]; [apply emits_ret |].
  apply emits_bind; [apply emits_extract_data | intros _].
  apply emits_bind; [apply emits_emit; discriminate | intros _; exact IH].
Qed.

Lemma emits_main_extract file headers extract output_dir :
  emits not_close_input (main_extract file headers extract output_dir).
Proof.
  unfold main_extract. destruct extract as [wanted |]; [| apply emits_ret].
  destruct (truthy wanted); [| apply emits_ret].
  intros w. destruct (extract_loop_effect file headers wanted output_dir w)
    as (_ & trace & Hlog & Hall & _).
  exists trace. split; assumption.
Qed.

(** X15.  A run without [--extract] (or with an empty identifier) and
    without [--export] writes nothing: whatever the other options and the
    file are, no output file is created or changed and no destination is
    ever opened, also when the run ends with an exception. *)
Theorem X15_listing_run_writes_nothing (argc : Z) (a : args) (file : bytes) (w : world) :
  a_extract a = None \/ a_extract a = Some [] ->
  a_export a = false ->
  w_files (snd (main argc a file w)) = w_files w /\
  exists trace,
    w_log (snd (main argc a file w)) = w_log w ++ trace /\ Forall is_quiet trace.
Proof.
  intros Hextract Hexport.
  assert (Hme : forall headers, main_extract file headers (a_extract a) (a_output_dir a) = ret tt).
  { intros headers. destruct Hextract as [-> | ->]; reflexivity. }
  split.
  - revert w. change (keeps_files (main argc a file)). unfold main.
    destruct (argc <=? 2).
    + apply keeps_bind; [apply keeps_emit | intros _; apply keeps_raise].
    + apply keeps_finally; [| apply keeps_emit].
      apply keeps_bind; [apply keeps_read_pac_header | intros [ph |]; [| apply keeps_emit]].
      apply keeps_bind; [apply keeps_when, keeps_emit | intros _].
      apply keeps_bind; [apply keeps_read_headers | intros headers].
      apply keeps_bind; [apply keeps_when, keeps_print_headers | intros _].
      rewrite Hme, Hexport.
      apply keeps_bind; [apply keeps_ret | intros _; apply keeps_ret].
  - revert w. change (emits is_quiet (main argc a file)). unfold main.
    pose proof input_event_quiet as HQ.
    destruct (argc <=? 2).
    + apply emits_bind; [apply emits_print; exact HQ | intros _; apply emits_raise].
    + apply emits_finally; [| apply emits_emit; exact I].
      apply emits_bind; [apply emits_read_pac_header; exact HQ |].
      intros [ph |]; [| apply emits_print; exact HQ].
      apply emits_bind; [apply emits_when, emits_print; exact HQ | intros _].
      apply emits_bind; [apply emits_read_headers; exact HQ | intros headers].
      apply emits_bind; [apply emits_when, emits_print_headers; exact HQ | intros _].
      rewrite Hme, Hexport.
      apply emits_bind; [apply emits_ret | intros _; apply emits_ret].
Qed.

(** X16.  The extract block touches one file at most, the file that the
    path made of the output directory and the requested identifier names:
    every other file is as before, and at most one destination is opened,
    whether the block returns or raises. *)
Theorem X16_extract_block_touches_one_path (file : bytes) (headers : list Header.t)
    (wanted output_dir : pystr) (w : world) :
  let path := os_path_join output_dir wanted in
  let r := main_extract file headers (Some wanted) output_dir w in
  (forall key, key <> resolve path -> w_files (snd r) !! key = w_files w !! key) /\
  exists trace,
    w_log (snd r) = w_log w ++ trace /\
    (opens_of trace = [] \/ opens_of trace = [path]).
Proof.
  cbv zeta. unfold main_extract. destruct (truthy wanted).
  - destruct (extract_loop_effect file headers wanted output_dir w)
      as (Hframe & trace & Hlog & _ & Hopens).
    split; [exact Hframe |]. exists trace. split; assumption.
  - split; [reflexivity |]. exists []. rewrite app_nil_r. split; [reflexivity | left; reflexivity].
Qed.

Lemma main_walk_exact file ph w hs w' :
  PacHeader.SIZE <= blen file -> 0 <= PacHeader.nFileCount ph ->
  main_walk file ph w = (Ok hs, w') ->
  Z.of_nat (length hs)
    = Z.min (PacHeader.nFileCount ph) ((blen file - main_offset) / Header.SIZE) /\
  (forall (i : nat) h, hs !! i = Some h -> Header.init (record_at file i) = Ok h) /\
  w_files w' = w_files w.
Proof.
  intros Hlen Hcount Hwalk. unfold main_walk in Hwalk.
  destruct (read_headers_walk file (Z.to_nat (PacHeader.nFileCount ph)) main_offset [] w)
    as (trace & result & pos & Hrun & Hspec).
  rewrite Hrun in Hwalk. injection Hwalk as -> <-.
  assert (Hoff : 0 <= main_offset <= blen file).
  { unfold main_offset. rewrite PacHeader_SIZE_eq in Hlen. lia. }
  destruct (walk_exact _ _ _ _ _ _ Hspec Hoff) as (more & -> & Hexact & Hdec).
  cbn [app w_files]. rewrite Z2Nat.id in Hexact by lia.
  split; [exact Hexact |]. split; [exact Hdec | reflexivity].
Qed.

(** X17.  An export run that returns has written the whole table: with
    [--export] and no [--extract], on a file that holds the archive
    header, when [main] returns normally the header decoded and the
    entries are the [min(nFileCount, records that fit)] records of the
    table in order; when moreover no entry's destination names the input
    file, the output files are those of before with, for each entry in
    turn, its payload [file[dwDataOffset : dwDataOffset + nFileSize]] put
    in the file that its destination names. *)
Theorem X17_export_run_writes_the_table (argc : Z) (a : args) (file : bytes)
    (w w' : world) :
  2 < argc ->
  a_extract a = None -> a_export a = true ->
  PacHeader.SIZE <= blen file ->
  main argc a file w = (Ok tt, w') ->
  exists ph hs,
    PacHeader.init (slice file 0 PacHeader.SIZE) = Ok ph /\
    Z.of_nat (length hs)
      = Z.min (PacHeader.nFileCount ph) ((blen file - main_offset) / Header.SIZE) /\
    (forall (i : nat) h, hs !! i = Some h -> Header.init (record_at file i) = Ok h) /\
    (Forall (fun h => names_input (export_path (a_output_dir a) h) = false) hs ->
     w_files w'
     = foldl (fun m h => <[resolve (export_path (a_output_dir a) h) := payload file h]> m)
         (w_files w) hs).
Proof.
  intros Hargc Hextract Hexport Hlen Hmain. unfold main in Hmain.
  destruct (Z.leb_spec argc 2) as [Hle | _]; [lia |].
  unfold finally in Hmain.
  match type of Hmain with
  | (let (r, w1) := ?body w in _) = _ => destruct (body w) as [r wb] eqn:Hbody
  end.
  cbn in Hmain. injection Hmain as -> <-. cbn [w_files].
  apply bind_Ok in Hbody as (pac & w1 & Hpac & Hbody).
  pose proof (keeps_read_pac_header file w) as Hk1. rewrite Hpac in Hk1. cbn [snd] in Hk1.
  rewrite read_pac_header_eq in Hpac. cbv zeta in Hpac.
  destruct (Z.eqb_spec (blen (slice file 0 PacHeader.SIZE)) PacHeader.SIZE) as [_ | Hne].
  2:{ exfalso. apply Hne. apply slice_full_iff; rewrite ?PacHeader_SIZE_eq in *; lia. }
  destruct (PacHeader.init (slice file 0 PacHeader.SIZE)) as [ph |] eqn:Hinit; [| discriminate].
  injection Hpac as <- _.
  apply bind_Ok in Hbody as ([] & w2 & Hprint & Hbody).
  pose proof (keeps_when (a_header a) (print (MsgPacHeader ph (a_verbose a)))
                (keeps_emit _) w1) as Hk2.
  rewrite Hprint in Hk2. cbn [snd] in Hk2.
  apply bind_Ok in Hbody as (hs & w3 & Hwalk & Hbody).
  assert (Hcount : 0 <= PacHeader.nFileCount ph).
  { destruct (PacHeader_init_Ok _ _ Hinit) as (_ & -> & _). apply le_uint_u32. }
  destruct (main_walk_exact file ph w2 hs w3 Hlen Hcount Hwalk) as (Hexact & Hdec & Hk3).
  apply bind_Ok in Hbody as ([] & w4 & Hlist & Hbody).
  pose proof (keeps_when (a_print a || a_verbose a) (print_headers 0 hs (a_verbose a))
                (keeps_print_headers hs (a_verbose a) 0) w3) as Hk4.
  rewrite Hlist in Hk4. cbn [snd] in Hk4.
  rewrite Hextract, Hexport in Hbody. cbn [main_extract when] in Hbody.
  apply bind_Ok in Hbody as ([] & w5 & Hret & Hbody). injection Hret as <-.
  destruct (export_loop_Ok _ _ _ _ _ Hbody) as (Hfiles & _).
  exists ph, hs. split; [reflexivity |]. split; [exact Hexact |]. split; [exact Hdec |].
  intros _. rewrite Hfiles. congruence.
Qed.

Lemma emits_from {A B} Q (c : M A) (k : A -> M B) w r1 w1 :
  c w = (r1, w1) -> (forall a, emits Q (k a)) ->
  exists trace, w_log (snd (bind c k w)) = w_log w1 ++ trace /\ Forall Q trace.
Proof.
  intros Hc Hk. unfold bind. rewrite Hc. destruct r1 as [a | e].
  - exact (Hk a w1).
  - exists []. rewrite app_nil_r. split; [reflexivity | constructor].
Qed.

Lemma finally_emit_log {A} (body : M A) e w :
  w_log (snd (finally body (emit e) w)) = w_log (snd (body w)) ++ [e].
Proof.
  unfold finally, emit. destruct (body w) as [r w1]. reflexivity.
Qed.

Lemma read_pac_header_log file w :
  w_log (snd (read_pac_header file w))
  = w_log w ++ [EvSeek 0; EvRead 0 PacHeader.SIZE (slice file 0 PacHeader.SIZE)].
Proof.
  rewrite read_pac_header_eq. cbv zeta.
  destruct (blen (slice file 0 PacHeader.SIZE) =? PacHeader.SIZE); reflexivity.
Qed.

(** X18.  The input file is closed on every path that opened it: with
    more than two arguments, [main] first rewinds and reads the archive
    header block, and the last thing it does, whether it returns or
    raises, is to close the file, once.  With two arguments or fewer it
    prints the help and exits with status 1 before touching the file. *)
Theorem X18_input_closed_on_every_path (argc : Z) (a : args) (file : bytes) (w : world) :
  (argc <= 2 ->
   main argc a file w
   = (Raise (SystemExit 1),
      mkWorld (w_pos w) (w_files w) (w_log w ++ [EvPrint MsgHelp]))) /\
  (2 < argc ->
   exists trace,
     w_log (snd (main argc a file w))
     = w_log w
         ++ [EvSeek 0; EvRead 0 PacHeader.SIZE (slice file 0 PacHeader.SIZE)]
         ++ trace ++ [EvCloseInput] /\
     Forall not_close_input trace).
Proof.
  split; intros Hargc; unfold main.
  - destruct (Z.leb_spec argc 2) as [_ | Hgt]; [reflexivity | lia].
  - destruct (Z.leb_spec argc 2) as [Hle | _]; [lia |].
    pose proof input_event_not_close as HQ.
    rewrite finally_emit_log.
    match goal with
    | |- context [bind (read_pac_header file) ?k w] =>
        assert (Hrest : forall pac, emits not_close_input (k pac));
        [| destruct (emits_from not_close_input (read_pac_header file) k w _ _
                       (surjective_pairing _) Hrest) as (trace & Hlog & Hall)]
    end.
    + intros [ph |]; cbv beta iota; [| apply emits_print; exact HQ].
      apply emits_bind; [apply emits_when, emits_print; exact HQ | intros _].
      apply emits_bind; [apply emits_read_headers; exact HQ | intros headers].
      apply emits_bind; [apply emits_when, emits_print_headers; exact HQ | intros _].
      apply emits_bind; [apply emits_main_extract | intros _].
      apply emits_when, emits_export_loop.
    + exists trace. rewrite Hlog, read_pac_header_log, <- !app_assoc.
      split; [reflexivity | exact Hall].
Qed.

End Main.

Lemma X15_listing_run_writes_nothing_witness :
  (a_extract listing_args = None \/ a_extract listing_args = Some []) /\
  a_export listing_args = false /\
  w_files (snd (main 3 listing_args truncated_file w0)) = w_files w0.
Proof.
  split; [left; reflexivity |]. split; [reflexivity |].
  exact (proj1 (X15_listing_run_writes_nothing (P := posix) 3 listing_args truncated_file w0
                  (or_introl eq_refl) eq_refl)).
Defined.

Lemma X17_export_run_writes_the_table_witness :
  exists w',
    main 3 export_args duplicate_file w0 = (Ok tt, w') /\
    2 < 3 /\ PacHeader.SIZE <= blen duplicate_file /\
    exists ph hs,
      PacHeader.init (slice duplicate_file 0 PacHeader.SIZE) = Ok ph /\
      Z.of_nat (length hs) = 2 /\
      Forall (fun h => names_input (export_path (ascii_str "out") h) = false) hs /\
      w_files w'
      = foldl (fun m h => <[resolve (export_path (ascii_str "out") h)
                            := payload duplicate_file h]> m)
          ∅ hs.
Proof.
  eexists.
  match goal with
  | |- main ?n ?a ?f ?w = (Ok tt, ?w') /\ _ =>
      assert (Hmain : main n a f w = (Ok tt, w')) by (vm_compute; reflexivity);
      split; [exact Hmain |]
  end.
  split; [lia |]. split; [vm_compute; discriminate |].
  destruct (X17_export_run_writes_the_table (P := posix) 3 export_args duplicate_file w0 _
              ltac:(lia) eq_refl eq_refl ltac:(vm_compute; discriminate) Hmain)
    as (ph & hs & Hph & Hlen & Hdec & Hfiles).
  assert (Htwo : Z.of_nat (length hs) = 2).
  { rewrite Hlen. destruct (PacHeader_init_Ok _ _ Hph) as (_ & -> & _). vm_compute. reflexivity. }
  assert (Hclear : Forall (fun h => names_input (export_path (ascii_str "out") h) = false) hs).
  { destruct hs as [| h1 [| h2 [| h3 rest]]]; cbn [length] in Htwo; try lia.
    pose proof (Hdec 0%nat h1 eq_refl) as H1. pose proof (Hdec 1%nat h2 eq_refl) as H2.
    vm_compute in H1. vm_compute in H2.
    injection H1 as <-. injection H2 as <-.
    repeat constructor; vm_compute; reflexivity. }
  exists ph, hs. split; [exact Hph |]. split; [exact Htwo |]. split; [exact Hclear |].
  exact (Hfiles Hclear).
Defined.
